(** * Jupityr gamification core: Player and GameEngine

    A shallow embedding of [jupityr/gamification/models/player.py] and
    [jupityr/gamification/engine/game_engine.py], and the properties of
    the progression model, the achievement-rule pass, the event
    dispatch, the leaderboard and the statistics record.

    Conventions of the embedding:
    - Python [int] is [Z] (unbounded); [str] is [string].
    - [datetime.now()] is the parameter [now] of the method that reads
      the clock, a number of seconds; a method reading it twice gets the
      same value twice.
    - [Challenge] objects are mutable and shared by reference between
      the catalog and the players, so they live in an object store and
      dictionaries hold locations.  [Achievement] objects are never
      mutated and are held by value.
    - Event listeners are opaque callables: a listener is a name, and a
      call of [_trigger_event] is recorded with the listeners it invokes,
      in order.  Listeners and rule conditions neither raise nor mutate
      the engine. *)

From Stdlib Require Import ZArith List Bool Permutation Sorted QArith.
From stdpp Require Import gmap strings list fin_maps.

Local Open Scope Z_scope.

(** ** Data model (models/player.py) *)

Inductive Skill := NLP | ML | DATA_ANALYSIS | PROGRAMMING.

Definition Skill_eqb (a b : Skill) : bool :=
  match a, b with
  | NLP, NLP | ML, ML | DATA_ANALYSIS, DATA_ANALYSIS
  | PROGRAMMING, PROGRAMMING => true
  | _, _ => false
  end.

(** [list(Skill)]: the members in definition order. *)
Definition all_skills : list Skill := [NLP; ML; DATA_ANALYSIS; PROGRAMMING].

(** [skill.value] *)
Definition Skill_value (s : Skill) : string :=
  match s with
  | NLP => "nlp"
  | ML => "machine_learning"
  | DATA_ANALYSIS => "data_analysis"
  | PROGRAMMING => "programming"
  end.

Record Achievement := mkAchievement {
  a_id : string;
  a_name : string;
  a_description : string;
  a_category : string;
  a_points : Z;
  a_earned_at : Z;
  a_metadata : list (string * string)
}.

Record Challenge := mkChallenge {
  c_id : string;
  c_name : string;
  c_description : string;
  c_difficulty : Z;
  c_skills : list Skill;
  c_points : Z;
  c_completed : bool;
  c_completed_at : option Z
}.

(** The object store of [Challenge] instances. *)
Definition loc := nat.
Definition Store := loc -> Challenge.

Definition store_set (st : Store) (l : loc) (c : Challenge) : Store :=
  fun l' => if Nat.eqb l' l then c else st l'.

Definition blank_challenge : Challenge :=
  mkChallenge "" "" "" 0 [] 0 false None.

Definition empty_store : Store := fun _ => blank_challenge.

Record Player := mkPlayer {
  player_id : string;
  username : string;
  level : Z;
  experience : Z;
  total_points : Z;
  _achievements : list Achievement;
  _challenges : gmap string loc;
  _skill_levels : Skill -> Z;
  created_at : Z;
  last_active : Z
}.

(** [Player.__init__] *)
Definition new_player (pid uname : string) (now : Z) : Player :=
  mkPlayer pid uname 1 0 0 [] ∅ (fun _ => 0) now now.

Module Player.

(** Field assignments [self.f = v]. *)
Definition set_level (p : Player) (v : Z) : Player :=
  mkPlayer (player_id p) (username p) v (experience p) (total_points p)
           (_achievements p) (_challenges p) (_skill_levels p)
           (created_at p) (last_active p).

Definition set_experience (p : Player) (v : Z) : Player :=
  mkPlayer (player_id p) (username p) (level p) v (total_points p)
           (_achievements p) (_challenges p) (_skill_levels p)
           (created_at p) (last_active p).

Definition set_total_points (p : Player) (v : Z) : Player :=
  mkPlayer (player_id p) (username p) (level p) (experience p) v
           (_achievements p) (_challenges p) (_skill_levels p)
           (created_at p) (last_active p).

Definition set_achievements (p : Player) (v : list Achievement) : Player :=
  mkPlayer (player_id p) (username p) (level p) (experience p)
           (total_points p) v (_challenges p) (_skill_levels p)
           (created_at p) (last_active p).

Definition set_challenges (p : Player) (v : gmap string loc) : Player :=
  mkPlayer (player_id p) (username p) (level p) (experience p)
           (total_points p) (_achievements p) v (_skill_levels p)
           (created_at p) (last_active p).

Definition set_skill_levels (p : Player) (v : Skill -> Z) : Player :=
  mkPlayer (player_id p) (username p) (level p) (experience p)
           (total_points p) (_achievements p) (_challenges p) v
           (created_at p) (last_active p).

Definition set_last_active (p : Player) (v : Z) : Player :=
  mkPlayer (player_id p) (username p) (level p) (experience p)
           (total_points p) (_achievements p) (_challenges p)
           (_skill_levels p) (created_at p) v.

(** [add_experience]: one comparison against [100 * self.level], read
    before the level changes. *)
Definition add_experience (p : Player) (amount now : Z) : bool * Player :=
  let p1 := set_experience p (experience p + amount) in
  let p2 := set_last_active p1 now in
  let required_exp := 100 * level p2 in
  if required_exp <=? experience p2 then
    let p3 := set_level p2 (level p2 + 1) in
    let p4 := set_experience p3 (experience p3 - required_exp) in
    (true, p4)
  else (false, p2).

(** [achievement.id in {a.id for a in self._achievements}] *)
Definition holds (p : Player) (aid : string) : bool :=
  existsb (fun a => String.eqb (a_id a) aid) (_achievements p).

(** [earn_achievement]: the result of [add_experience] is dropped. *)
Definition earn_achievement (p : Player) (a : Achievement) (now : Z) : Player :=
  if negb (holds p (a_id a)) then
    let p1 := set_achievements p (_achievements p ++ [a]) in
    let p2 := set_total_points p1 (total_points p1 + a_points a) in
    snd (add_experience p2 (a_points a) now)
  else p.

(** [start_challenge]: the player keeps the reference it is given. *)
Definition start_challenge (st : Store) (p : Player) (l : loc) : Player :=
  let cid := c_id (st l) in
  match _challenges p !! cid with
  | Some _ => p
  | None => set_challenges p (<[cid := l]> (_challenges p))
  end.

(** [self._skill_levels[skill] += 1] *)
Definition bump_skill (p : Player) (s : Skill) : Player :=
  set_skill_levels p
    (fun s' => if Skill_eqb s' s then _skill_levels p s' + 1
               else _skill_levels p s').

(** [complete_challenge]: the flag and the time stamp are written to the
    object the player's dictionary refers to. *)
Definition complete_challenge (st : Store) (p : Player) (cid : string)
    (now : Z) : bool * Player * Store :=
  match _challenges p !! cid with
  | Some l =>
      let challenge := st l in
      if negb (c_completed challenge) then
        let marked :=
          mkChallenge (c_id challenge) (c_name challenge)
            (c_description challenge) (c_difficulty challenge)
            (c_skills challenge) (c_points challenge) true (Some now) in
        let st1 := store_set st l marked in
        let p1 := set_total_points p (total_points p + c_points marked) in
        let p2 := snd (add_experience p1 (c_points marked) now) in
        let p3 := fold_left bump_skill (c_skills marked) p2 in
        (true, p3, st1)
      else (false, p, st)
  | None => (false, p, st)
  end.

(** [get_skill_level] *)
Definition get_skill_level (p : Player) (s : Skill) : Z := _skill_levels p s.

(** The values of [self._challenges], dereferenced. *)
Definition challenge_values (st : Store) (p : Player) : list Challenge :=
  map (fun kv => st (snd kv)) (map_to_list (_challenges p)).

Definition active_challenges (st : Store) (p : Player) : list Challenge :=
  List.filter (fun c => negb (c_completed c)) (challenge_values st p).

Definition completed_challenges (st : Store) (p : Player) : list Challenge :=
  List.filter (fun c => c_completed c) (challenge_values st p).

Record Summary := mkSummary {
  s_username : string;
  s_level : Z;
  s_experience : Z;
  s_total_points : Z;
  s_achievements_count : Z;
  s_completed_challenges : Z;
  s_active_challenges : Z;
  s_skills : list (string * Z);
  s_days_active : Z
}.

(** [get_progress_summary]; [timedelta.days] of a difference in seconds
    is its floor division by 86400. *)
Definition get_progress_summary (st : Store) (p : Player) (now : Z) : Summary :=
  mkSummary (username p) (level p) (experience p) (total_points p)
    (Z.of_nat (length (_achievements p)))
    (Z.of_nat (length (completed_challenges st p)))
    (Z.of_nat (length (active_challenges st p)))
    (map (fun s => (Skill_value s, _skill_levels p s)) all_skills)
    ((now - created_at p) / 86400).

End Player.

(** ** The engine (engine/game_engine.py) *)

Record AchievementRule := mkRule {
  achievement : Achievement;
  condition : Store -> Player -> bool;
  description : string
}.

(** [AchievementRule.check] *)
Definition check (r : AchievementRule) (st : Store) (p : Player) : bool :=
  condition r st p.

Inductive Exception :=
| ValueError (msg : string)
| ZeroDivisionError.

Inductive result (A : Type) :=
| Ok (a : A)
| Raise (exn : Exception).
Arguments Ok {A} a.
Arguments Raise {A} exn.

Definition Listener := string.

(** The positional arguments after the player. *)
Inductive EventArg :=
| NoArg
| ChallengeId (cid : string)
| Earned (a : Achievement).

(** One call of [_trigger_event], with the listeners it invoked in
    order. *)
Record Fired := mkFired {
  f_event : string;
  f_player : string;
  f_arg : EventArg;
  f_listeners : list Listener
}.

Record GameEngine := mkEngine {
  _players : list (string * Player);
  _achievement_rules : list AchievementRule;
  _challenge_catalog : gmap string loc;
  _event_listeners : gmap string (list Listener);
  store : Store;
  next_loc : loc;
  trace : list Fired
}.

(** [GameEngine.__init__] *)
Definition new_engine : GameEngine :=
  mkEngine [] [] ∅
    (<["level_up" := []]>
       (<["achievement_earned" := []]>
          (<["challenge_completed" := []]> ∅)))
    empty_store 0%nat [].

(** ** The player registry: an insertion-ordered dictionary *)

Fixpoint players_get (ps : list (string * Player)) (pid : string)
    : option Player :=
  match ps with
  | [] => None
  | (k, p) :: rest => if String.eqb k pid then Some p else players_get rest pid
  end.

(** [d[pid] = p]: an existing key keeps its position, a new key goes
    last. *)
Fixpoint players_set (ps : list (string * Player)) (pid : string)
    (p : Player) : list (string * Player) :=
  match ps with
  | [] => [(pid, p)]
  | (k, q) :: rest =>
      if String.eqb k pid then (k, p) :: rest
      else (k, q) :: players_set rest pid p
  end.

Module GameEngine.

Definition set_players (e : GameEngine) (v : list (string * Player))
    : GameEngine :=
  mkEngine v (_achievement_rules e) (_challenge_catalog e)
           (_event_listeners e) (store e) (next_loc e) (trace e).

Definition set_store (e : GameEngine) (v : Store) : GameEngine :=
  mkEngine (_players e) (_achievement_rules e) (_challenge_catalog e)
           (_event_listeners e) v (next_loc e) (trace e).

Definition set_trace (e : GameEngine) (v : list Fired) : GameEngine :=
  mkEngine (_players e) (_achievement_rules e) (_challenge_catalog e)
           (_event_listeners e) (store e) (next_loc e) v.

Definition duplicate_message (pid : string) : string :=
  String.append "Player " (String.append pid " already exists").

(** [register_player] *)
Definition register_player (e : GameEngine) (pid uname : string) (now : Z)
    : result Player * GameEngine :=
  match players_get (_players e) pid with
  | Some _ => (Raise (ValueError (duplicate_message pid)), e)
  | None =>
      let player := new_player pid uname now in
      (Ok player, set_players e (players_set (_players e) pid player))
  end.

(** [get_player] *)
Definition get_player (e : GameEngine) (pid : string) : option Player :=
  players_get (_players e) pid.

(** [add_achievement_rule] *)
Definition add_achievement_rule (e : GameEngine) (r : AchievementRule)
    : GameEngine :=
  mkEngine (_players e) (_achievement_rules e ++ [r]) (_challenge_catalog e)
           (_event_listeners e) (store e) (next_loc e) (trace e).

(** [add_challenge]: the caller's object is placed in the store and the
    catalog refers to it. *)
Definition add_challenge (e : GameEngine) (c : Challenge) : GameEngine :=
  mkEngine (_players e) (_achievement_rules e)
           (<[c_id c := next_loc e]> (_challenge_catalog e))
           (_event_listeners e) (store_set (store e) (next_loc e) c)
           (S (next_loc e)) (trace e).

(** [assign_challenge]: the catalog's own object is handed to the
    player. *)
Definition assign_challenge (e : GameEngine) (pid cid : string)
    : bool * GameEngine :=
  match get_player e pid, _challenge_catalog e !! cid with
  | Some player, Some l =>
      let player' := Player.start_challenge (store e) player l in
      (true, set_players e (players_set (_players e) pid player'))
  | _, _ => (false, e)
  end.

(** [_trigger_event]: the listeners registered under the name, if any. *)
Definition _trigger_event (e : GameEngine) (event pid : string)
    (arg : EventArg) : Fired :=
  mkFired event pid arg (default [] (_event_listeners e !! event)).

(** The loop of [_check_achievements] over the rules that remain. *)
Fixpoint check_rules (e : GameEngine) (now : Z)
    (rules : list AchievementRule) (player : Player)
    : Player * list Fired * list Achievement :=
  match rules with
  | [] => (player, [], [])
  | rule :: rest =>
      let has_achievement :=
        existsb (fun a => String.eqb (a_id a) (a_id (achievement rule)))
                (_achievements player) in
      if negb has_achievement && check rule (store e) player then
        let player1 := Player.earn_achievement player (achievement rule) now in
        let ev := _trigger_event e "achievement_earned" (player_id player1)
                    (Earned (achievement rule)) in
        let '(player2, evs, news) := check_rules e now rest player1 in
        (player2, ev :: evs, achievement rule :: news)
      else check_rules e now rest player
  end.

(** [_check_achievements] *)
Definition _check_achievements (e : GameEngine) (now : Z) (player : Player)
    : Player * list Fired * list Achievement :=
  check_rules e now (_achievement_rules e) player.

(** [complete_player_challenge] *)
Definition complete_player_challenge (e : GameEngine) (pid cid : string)
    (now : Z) : bool * GameEngine :=
  match get_player e pid with
  | None => (false, e)
  | Some player =>
      let '(success, player1, st1) :=
        Player.complete_challenge (store e) player cid now in
      if success then
        let e1 := set_store e st1 in
        let ev := _trigger_event e1 "challenge_completed" (player_id player1)
                    (ChallengeId cid) in
        let '(player2, evs, _) := _check_achievements e1 now player1 in
        (success,
         set_trace (set_players e1 (players_set (_players e1) pid player2))
                   (trace e1 ++ ev :: evs))
      else (success, e)
  end.

(** [award_experience] *)
Definition award_experience (e : GameEngine) (pid : string) (amount now : Z)
    : bool * GameEngine :=
  match get_player e pid with
  | None => (false, e)
  | Some player =>
      let '(leveled_up, player1) := Player.add_experience player amount now in
      let lev :=
        if leveled_up then
          [_trigger_event e "level_up" (player_id player1) NoArg]
        else [] in
      let '(player2, evs, _) := _check_achievements e now player1 in
      (leveled_up,
       set_trace (set_players e (players_set (_players e) pid player2))
                 (trace e ++ lev ++ evs))
  end.

(** [on]: a name that is not a key of the listener table is dropped. *)
Definition on (e : GameEngine) (event : string) (listener : Listener)
    : GameEngine :=
  match _event_listeners e !! event with
  | Some ls =>
      mkEngine (_players e) (_achievement_rules e) (_challenge_catalog e)
               (<[event := ls ++ [listener]]> (_event_listeners e))
               (store e) (next_loc e) (trace e)
  | None => e
  end.

(** [sorted(xs, key=key, reverse=True)]: descending by key, and elements
    with equal keys keep the order they had in [xs]. *)
Fixpoint insert_desc {A : Type} (key : A -> Z) (x : A) (l : list A)
    : list A :=
  match l with
  | [] => [x]
  | y :: ys =>
      if key x <? key y then y :: insert_desc key x ys else x :: y :: ys
  end.

Definition sorted_reverse {A : Type} (key : A -> Z) (l : list A) : list A :=
  fold_right (insert_desc key) [] l.

(** [xs[:n]]: a negative [n] counts from the end. *)
Definition slice_to {A : Type} (l : list A) (n : Z) : list A :=
  if 0 <=? n then firstn (Z.to_nat n) l
  else firstn (Z.to_nat (Z.of_nat (length l) + n)) l.

(** [enumerate(xs)], counting from [i]. *)
Fixpoint enumerate_from {A : Type} (i : Z) (l : list A) : list (Z * A) :=
  match l with
  | [] => []
  | x :: xs => (i, x) :: enumerate_from (i + 1) xs
  end.

Record Entry := mkEntry {
  rank : Z;
  summary : Player.Summary
}.

(** [get_leaderboard] *)
Definition get_leaderboard (e : GameEngine) (top_n now : Z) : list Entry :=
  let sorted_players := sorted_reverse total_points (map snd (_players e)) in
  map (fun ip => mkEntry (fst ip + 1)
                   (Player.get_progress_summary (store e) (snd ip) now))
      (enumerate_from 0 (slice_to sorted_players top_n)).

(** [a / b] on integers: the exact quotient, which Python rounds to the
    nearest float; a zero divisor raises. *)
Definition py_truediv (a b : Z) : result Q :=
  if b =? 0 then Raise ZeroDivisionError
  else if 0 <? b then Ok (a # Z.to_pos b)
  else Ok ((- a) # Z.to_pos (- b)).

Record Stats := mkStats {
  total_players : Z;
  total_achievements_rules : Z;
  total_challenges : Z;
  average_player_level : Q
}.

(** [sum(p.level for p in self._players.values())] *)
Definition sum_levels (ps : list (string * Player)) : Z :=
  fold_left (fun acc kp => acc + level (snd kp)) ps 0.

(** [get_stats]: the conditional expression tests the dictionary before
    the quotient is evaluated. *)
Definition get_stats (e : GameEngine) : result Stats :=
  let n := Z.of_nat (length (_players e)) in
  let average :=
    match _players e with
    | _ :: _ => py_truediv (sum_levels (_players e)) n
    | [] => Ok 0%Q
    end in
  match average with
  | Ok avg =>
      Ok (mkStats n (Z.of_nat (length (_achievement_rules e)))
            (Z.of_nat (size (_challenge_catalog e))) avg)
  | Raise exn => Raise exn
  end.

End GameEngine.

(** ** Runs of the engine *)

Inductive Op :=
| RegisterPlayer (pid uname : string)
| AddAchievementRule (r : AchievementRule)
| AddChallenge (c : Challenge)
| AssignChallenge (pid cid : string)
| CompletePlayerChallenge (pid cid : string)
| AwardExperience (pid : string) (amount : Z)
| On (event : string) (listener : Listener).

(** One call at time [now]; the returned value is dropped, and a raised
    [ValueError] leaves the engine as it was. *)
Definition exec (e : GameEngine) (step : Z * Op) : GameEngine :=
  let now := fst step in
  match snd step with
  | RegisterPlayer pid uname => snd (GameEngine.register_player e pid uname now)
  | AddAchievementRule r => GameEngine.add_achievement_rule e r
  | AddChallenge c => GameEngine.add_challenge e c
  | AssignChallenge pid cid => snd (GameEngine.assign_challenge e pid cid)
  | CompletePlayerChallenge pid cid =>
      snd (GameEngine.complete_player_challenge e pid cid now)
  | AwardExperience pid amount =>
      snd (GameEngine.award_experience e pid amount now)
  | On event listener => GameEngine.on e event listener
  end.

Definition run (e : GameEngine) (steps : list (Z * Op)) : GameEngine :=
  fold_left exec steps e.

(** ** Vocabulary of the statements *)

(** How many times a skill is listed. *)
Definition occurrences (s : Skill) (l : list Skill) : nat :=
  length (List.filter (Skill_eqb s) l).

(** Descending order of a key, and of [total_points]. *)
Definition key_ge {A : Type} (key : A -> Z) (a b : A) : Prop :=
  key b <= key a.


(** Three players who complete challenges worth 30, 10 and 20 points. *)
Definition three_players : list (Z * Op) :=
  [ (0, RegisterPlayer "a" "ann"); (1, RegisterPlayer "b" "bob");
    (2, RegisterPlayer "c" "cy");
    (3, AddChallenge (mkChallenge "x30" "X" "" 1 [NLP] 30 false None));
    (4, AddChallenge (mkChallenge "x10" "Y" "" 1 [ML] 10 false None));
    (5, AddChallenge (mkChallenge "x20" "Z" "" 1 [] 20 false None));
    (6, AssignChallenge "a" "x30"); (7, AssignChallenge "b" "x10");
    (8, AssignChallenge "c" "x20");
    (9, CompletePlayerChallenge "a" "x30");
    (10, CompletePlayerChallenge "b" "x10");
    (11, CompletePlayerChallenge "c" "x20") ].

(** The record of [_trigger_event('achievement_earned', player, a)]. *)
Definition earned_event (e : GameEngine) (pid : string) (a : Achievement)
    : Fired :=
  mkFired "achievement_earned" pid (Earned a)
          (default [] (_event_listeners e !! "achievement_earned")).

(** An [achievement_earned] event for this player and achievement id. *)
Definition earned_for (pid aid : string) (f : Fired) : bool :=
  String.eqb (f_event f) "achievement_earned"
  && String.eqb (f_player f) pid
  && match f_arg f with
     | Earned a => String.eqb (a_id a) aid
     | _ => false
     end.

Definition earned_events (tr : list Fired) (pid aid : string) : nat :=
  length (List.filter (earned_for pid aid) tr).

Definition is_level_up (f : Fired) : bool := String.eqb (f_event f) "level_up".

Definition level_up_events (tr : list Fired) : nat :=
  length (List.filter is_level_up tr).

(** A rule that grants an achievement at level 5, with one listener. *)
Definition level5 : Achievement :=
  mkAchievement "lvl5" "Level five" "" "progress" 25 0 [].

Definition level5_rule : AchievementRule :=
  mkRule level5 (fun _ p => 5 <=? level p) "player.level >= 5".

Definition level5_setup : list (Z * Op) :=
  [ (0, RegisterPlayer "p1" "alice");
    (1, On "achievement_earned" "notify");
    (2, AddAchievementRule level5_rule) ].

Definition level5_climb : list (Z * Op) :=
  [ (3, AwardExperience "p1" 100); (4, AwardExperience "p1" 200);
    (5, AwardExperience "p1" 300) ].

(** Two rules that become true in the same pass. *)
Definition second_level : Achievement :=
  mkAchievement "lvl2" "Level two" "" "progress" 10 0 [].

Definition centurion : Achievement :=
  mkAchievement "xp100" "Centurion" "" "progress" 5 0 [].

Definition two_rules : list (Z * Op) :=
  [ (0, RegisterPlayer "p1" "alice");
    (1, AddAchievementRule
          (mkRule second_level (fun _ p => 2 <=? level p) ""));
    (2, AddAchievementRule
          (mkRule centurion (fun _ p => 2 <=? level p) "")) ].

(** An achievement and a challenge worth a whole level. *)
Definition welcome : Achievement :=
  mkAchievement "hello" "Welcome" "" "misc" 100 0 [].

Definition welcome_setup : list (Z * Op) :=
  [ (0, RegisterPlayer "p1" "alice");
    (1, On "level_up" "cheer");
    (2, AddAchievementRule (mkRule welcome (fun _ _ => true) "")) ].

Definition big_challenge : Challenge :=
  mkChallenge "big" "Big" "" 3 [PROGRAMMING] 100 false None.

Definition big_setup : list (Z * Op) :=
  [ (0, RegisterPlayer "p1" "alice");
    (1, On "level_up" "cheer");
    (2, AddChallenge big_challenge);
    (3, AssignChallenge "p1" "big") ].

(** One catalog challenge assigned to two players. *)
Definition shared_setup : list (Z * Op) :=
  [ (0, RegisterPlayer "p1" "alice");
    (1, RegisterPlayer "p2" "bob");
    (2, AddChallenge (mkChallenge "c1" "Parse" "" 2 [NLP] 50 false None));
    (3, AssignChallenge "p1" "c1");
    (4, AssignChallenge "p2" "c1") ].

(** The amount of experience or the point value an operation brings
    in. *)
Definition op_amount (op : Op) : Z :=
  match op with
  | AwardExperience _ amount => amount
  | AddAchievementRule r => a_points (achievement r)
  | AddChallenge c => c_points c
  | _ => 0
  end.

(** Admissible amounts: non-negative, and at most 200 in the strict
    reading. *)
Definition amount_ok (strict : bool) (x : Z) : Prop :=
  0 <= x /\ (strict = true -> x <= 200).

(** The progression invariants; the strict reading adds the bound of the
    experience by the next-level threshold. *)
Definition progression (strict : bool) (p : Player) : Prop :=
  1 <= level p /\ 0 <= experience p /\ 0 <= total_points p /\
  (strict = true -> experience p < 100 * level p).

(** Every player is stored under its own id. *)
Definition keyed (e : GameEngine) : Prop :=
  forall pid p, GameEngine.get_player e pid = Some p -> player_id p = pid.

(** The trace holds one [achievement_earned] event for each achievement
    id a player holds, and none for any other pair. *)
Definition earned_once (e : GameEngine) : Prop :=
  forall pid aid,
    earned_events (trace e) pid aid =
      match GameEngine.get_player e pid with
      | Some p => if Player.holds p aid then 1%nat else 0%nat
      | None => 0%nat
      end.

(** The state a run keeps: every player satisfies the progression
    invariants, and every point value in the rules and in the store is
    admissible. *)
Definition sound (strict : bool) (e : GameEngine) : Prop :=
  (forall pid p, GameEngine.get_player e pid = Some p ->
                 progression strict p) /\
  Forall (fun r => amount_ok strict (a_points (achievement r)))
         (_achievement_rules e) /\
  (forall l, amount_ok strict (c_points (store e l))).

(** One player awarded 350 points of experience at once. *)
Definition big_award : list (Z * Op) :=
  [ (0, RegisterPlayer "p1" "alice"); (1, AwardExperience "p1" 350) ].

(** Case analysis on the two readings of the invariants. *)
Ltac progress_cases strict :=
  unfold progression, amount_ok in *; simpl in *;
  destruct strict;
  repeat match goal with
         | H : _ /\ _ |- _ => destruct H
         | H : true = true -> _ |- _ => specialize (H eq_refl)
         | H : false = true -> _ |- _ => clear H
         end;
  repeat split; try (intros; first [discriminate | lia]).

(** The experience a player has earned in all: what is left, plus the
    thresholds 100, 200, ... paid for the levels already reached. *)
Definition lifetime_xp (p : Player) : Z :=
  experience p + 50 * level p * (level p - 1).

(** Every tracked id is the id of the object it refers to. *)
Definition tracks_by_id (st : Store) (m : gmap string loc) : Prop :=
  forall cid l, m !! cid = Some l -> c_id (st l) = cid.

(** What later states of a player keep of an earlier one: the identity,
    the level and the skill levels reached, the achievements in the order
    they were earned, and the challenges tracked. *)
Definition evolves (p p' : Player) : Prop :=
  player_id p' = player_id p /\ username p' = username p /\
  created_at p' = created_at p /\
  level p <= level p' /\
  (forall s, _skill_levels p s <= _skill_levels p' s) /\
  (exists more, _achievements p' = _achievements p ++ more) /\
  (forall cid l, _challenges p !! cid = Some l ->
                 _challenges p' !! cid = Some l).

(** The ids of the registry, in registration order. *)
Definition player_ids (e : GameEngine) : list string := map fst (_players e).

(** What a challenge object may become: nothing but the completion flag
    and its time stamp change, and only from not completed to
    completed. *)
Definition ages (c c' : Challenge) : Prop :=
  c_id c' = c_id c /\ c_name c' = c_name c /\
  c_description c' = c_description c /\ c_difficulty c' = c_difficulty c /\
  c_skills c' = c_skills c /\ c_points c' = c_points c /\
  (c_completed c = true -> c' = c) /\
  (c_completed c' = false -> c' = c).

(** Every reference held by the catalog or by a player is to an
    allocated object that carries the id it is filed under. *)
Definition well_formed (e : GameEngine) : Prop :=
  (forall cid l, _challenge_catalog e !! cid = Some l ->
     (l < next_loc e)%nat /\ c_id (store e l) = cid) /\
  (forall pid p cid l,
     GameEngine.get_player e pid = Some p ->
     _challenges p !! cid = Some l ->
     (l < next_loc e)%nat /\ c_id (store e l) = cid).

(** The keys of the listener table. *)
Definition supported_events : list string :=
  ["level_up"; "achievement_earned"; "challenge_completed"].

Definition supported (event : string) : bool :=
  existsb (String.eqb event) supported_events.

(** The listeners that the calls of [on] in a run name for an event, one
    entry per call, in the order of the calls. *)
Definition listeners_of (event : string) (steps : list (Z * Op))
    : list Listener :=
  flat_map (fun s => match snd s with
                     | On ev l => if String.eqb ev event then [l] else []
                     | _ => []
                     end) steps.

(** The experience handed to a player by [award_experience] in a run:
    the amounts of the calls that name the player once it is registered
    ([registered] tells whether it is when the run starts). *)
Fixpoint awarded (pid : string) (registered : bool) (steps : list (Z * Op))
    : Z :=
  match steps with
  | [] => 0
  | s :: rest =>
      match snd s with
      | RegisterPlayer k _ =>
          awarded pid (registered || String.eqb k pid) rest
      | AwardExperience k amount =>
          (if registered && String.eqb k pid then amount else 0)
          + awarded pid registered rest
      | _ => awarded pid registered rest
      end
  end.

(** Experience earned in all, less the points earned. *)
Definition balance_of (o : option Player) : Z :=
  match o with
  | Some p => lifetime_xp p - total_points p
  | None => 0
  end.

Definition is_registered (e : GameEngine) (pid : string) : bool :=
  match GameEngine.get_player e pid with
  | Some _ => true
  | None => false
  end.

Definition same_balance (p p' : Player) : Prop :=
  lifetime_xp p' - total_points p' = lifetime_xp p - total_points p.

(** Each player holds every achievement id once, and holds nothing that
    is not the achievement of a registered rule. *)
Definition achievements_sound (e : GameEngine) : Prop :=
  forall pid p,
    GameEngine.get_player e pid = Some p ->
    NoDup (map a_id (_achievements p)) /\
    (forall a, In a (_achievements p) ->
               In a (map achievement (_achievement_rules e))).

(** No registered player is below level 1. *)
Definition levels_ok (e : GameEngine) : Prop :=
  forall pid p, GameEngine.get_player e pid = Some p -> 1 <= level p.

(** Every registered player has grown out of the player that
    registration created under its id. *)
Definition from_fresh (e : GameEngine) : Prop :=
  forall pid p,
    GameEngine.get_player e pid = Some p ->
    exists uname t, evolves (new_player pid uname t) p.

(** * Properties of [Player] *)

Section PlayerFacts.

Import Player.

(** [add_experience] touches [experience], [level] and [last_active]
    only. *)
Lemma add_experience_frame (p : Player) (amount now : Z) :
  let p' := snd (add_experience p amount now) in
  player_id p' = player_id p /\ username p' = username p /\
  total_points p' = total_points p /\
  _achievements p' = _achievements p /\ _challenges p' = _challenges p /\
  _skill_levels p' = _skill_levels p /\ created_at p' = created_at p /\
  last_active p' = now.
Proof.
  unfold add_experience; simpl.
  destruct (100 * level p <=? experience p + amount); simpl; tauto.
Qed.

Lemma add_experience_up (p : Player) (amount now : Z) :
  100 * level p <= experience p + amount ->
  fst (add_experience p amount now) = true /\
  level (snd (add_experience p amount now)) = level p + 1 /\
  experience (snd (add_experience p amount now))
    = experience p + amount - 100 * level p.
Proof.
  intros H. unfold add_experience; simpl.
  destruct (Z.leb_spec (100 * level p) (experience p + amount)); simpl.
  - auto.
  - lia.
Qed.

Lemma add_experience_stay (p : Player) (amount now : Z) :
  experience p + amount < 100 * level p ->
  fst (add_experience p amount now) = false /\
  level (snd (add_experience p amount now)) = level p /\
  experience (snd (add_experience p amount now)) = experience p + amount.
Proof.
  intros H. unfold add_experience; simpl.
  destruct (Z.leb_spec (100 * level p) (experience p + amount)); simpl.
  - lia.
  - auto.
Qed.

(** The level never goes up by more than one in a call. *)
Lemma add_experience_level_step (p : Player) (amount now : Z) :
  level (snd (add_experience p amount now))
    = level p + (if fst (add_experience p amount now) then 1 else 0).
Proof.
  unfold add_experience; simpl.
  destruct (100 * level p <=? experience p + amount); simpl; lia.
Qed.

(** The outcome depends on the level and the experience only. *)
Lemma add_experience_progress (p q : Player) (amount now now' : Z) :
  level p = level q -> experience p = experience q ->
  fst (add_experience p amount now) = fst (add_experience q amount now') /\
  level (snd (add_experience p amount now))
    = level (snd (add_experience q amount now')) /\
  experience (snd (add_experience p amount now))
    = experience (snd (add_experience q amount now')).
Proof.
  intros Hl He. unfold add_experience; simpl. rewrite Hl, He.
  destruct (100 * level q <=? experience q + amount); simpl; auto.
Qed.

End PlayerFacts.

(** C1.  For a non-negative [amount], [add_experience] adds [amount] to
    the experience and applies at most one level-up: when the sum reaches
    [100 * level] the level goes up by exactly one, the threshold is
    subtracted (the remainder is carried over) and the call returns
    [true]; otherwise the level is unchanged, the experience is the old
    experience plus [amount] and the call returns [false].  From level 1
    and experience 0, adding 150 gives level 2 and experience 50, and
    adding 250 gives level 2 and experience 150. *)
Theorem add_experience_single_level_up (p : Player) (amount now : Z) :
  0 <= amount ->
  let r := Player.add_experience p amount now in
  (100 * level p <= experience p + amount ->
     fst r = true /\ level (snd r) = level p + 1 /\
     experience (snd r) = experience p + amount - 100 * level p) /\
  (experience p + amount < 100 * level p ->
     fst r = false /\ level (snd r) = level p /\
     experience (snd r) = experience p + amount) /\
  (level p = 1 -> experience p = 0 ->
     let r150 := Player.add_experience p 150 now in
     let r250 := Player.add_experience p 250 now in
     (fst r150 = true /\ level (snd r150) = 2 /\ experience (snd r150) = 50) /\
     (fst r250 = true /\ level (snd r250) = 2 /\
      experience (snd r250) = 150)).
Proof.
  intros _ r. subst r. split; [|split].
  - apply add_experience_up.
  - apply add_experience_stay.
  - intros Hl He r150 r250. subst r150 r250.
    unfold Player.add_experience; simpl. rewrite Hl, He. simpl. auto.
Qed.

Lemma add_experience_single_level_up_witness :
  0 <= 250 /\
  level (snd (Player.add_experience (new_player "p1" "alice" 0) 250 7)) = 2 /\
  experience (snd (Player.add_experience (new_player "p1" "alice" 0) 250 7))
    = 150.
Proof.
  split; [lia|].
  destruct (add_experience_single_level_up (new_player "p1" "alice" 0) 250 7)
    as (Hup & _ & _); [lia|].
  destruct Hup as (_ & Hl & He); [simpl; lia|].
  split; [exact Hl | exact He].
Defined.

(** ** [earn_achievement] *)

Lemma holds_spec (p : Player) (aid : string) :
  Player.holds p aid = true <->
  exists a, In a (_achievements p) /\ a_id a = aid.
Proof.
  unfold Player.holds. rewrite existsb_exists. split.
  - intros (a & Hin & Heq). exists a. split; [exact Hin|].
    now apply String.eqb_eq.
  - intros (a & Hin & Heq). exists a. split; [exact Hin|].
    now apply String.eqb_eq.
Qed.

Lemma earn_achievement_held (p : Player) (a : Achievement) (now : Z) :
  Player.holds p (a_id a) = true -> Player.earn_achievement p a now = p.
Proof. intros H. unfold Player.earn_achievement. now rewrite H. Qed.

Lemma earn_achievement_new (p : Player) (a : Achievement) (now : Z) :
  Player.holds p (a_id a) = false ->
  Player.earn_achievement p a now =
    snd (Player.add_experience
           (Player.set_total_points
              (Player.set_achievements p (_achievements p ++ [a]))
              (total_points p + a_points a))
           (a_points a) now).
Proof. intros H. unfold Player.earn_achievement. now rewrite H. Qed.

Lemma earn_achievement_holds (p : Player) (a : Achievement) (now : Z) :
  Player.holds (Player.earn_achievement p a now) (a_id a) = true.
Proof.
  destruct (Player.holds p (a_id a)) eqn:H.
  - now rewrite earn_achievement_held.
  - rewrite earn_achievement_new by exact H.
    unfold Player.holds.
    destruct (add_experience_frame
                (Player.set_total_points
                   (Player.set_achievements p (_achievements p ++ [a]))
                   (total_points p + a_points a)) (a_points a) now)
      as (_ & _ & _ & Hach & _).
    rewrite Hach. simpl. rewrite existsb_app. simpl.
    rewrite String.eqb_refl. now rewrite orb_true_r.
Qed.

(** C6.  [earn_achievement] is idempotent on the achievement id.  When an
    achievement with the same id is already held the call changes
    nothing.  Otherwise the achievement is appended once, its points are
    added to [total_points], and the same points go through
    [add_experience], so the level and the experience are the ones that
    call computes (a level-up included).  A second grant of the same id
    leaves the player as the first grant left it. *)
Theorem earn_achievement_idempotent (p : Player) (a : Achievement)
    (now : Z) :
  let p' := Player.earn_achievement p a now in
  ((exists a0, In a0 (_achievements p) /\ a_id a0 = a_id a) -> p' = p) /\
  ((forall a0, In a0 (_achievements p) -> a_id a0 <> a_id a) ->
     _achievements p' = _achievements p ++ [a] /\
     total_points p' = total_points p + a_points a /\
     level p' = level (snd (Player.add_experience p (a_points a) now)) /\
     experience p'
       = experience (snd (Player.add_experience p (a_points a) now)) /\
     (100 * level p <= experience p + a_points a ->
        level p' = level p + 1)) /\
  (forall (a2 : Achievement) (now2 : Z),
     a_id a2 = a_id a ->
     Player.earn_achievement p' a2 now2 = p').
Proof.
  intros p'. subst p'. split; [|split].
  - intros Hex. apply earn_achievement_held. now apply holds_spec.
  - intros Hnew.
    assert (Hh : Player.holds p (a_id a) = false).
    { destruct (Player.holds p (a_id a)) eqn:E; [|reflexivity].
      apply holds_spec in E. destruct E as (a0 & Hin & Heq).
      now destruct (Hnew a0 Hin). }
    rewrite earn_achievement_new by exact Hh.
    set (q := Player.set_total_points
                (Player.set_achievements p (_achievements p ++ [a]))
                (total_points p + a_points a)).
    destruct (add_experience_frame q (a_points a) now)
      as (_ & _ & Htp & Hach & _).
    rewrite Htp, Hach.
    destruct (add_experience_progress q p (a_points a) now now)
      as (_ & Hl & He); [reflexivity | reflexivity |].
    split; [reflexivity|]. split; [reflexivity|].
    split; [exact Hl|]. split; [exact He|].
    intros Hup.
    destruct (add_experience_up q (a_points a) now Hup) as (_ & Hl2 & _).
    exact Hl2.
  - intros a2 now2 Hid. apply earn_achievement_held.
    rewrite Hid. apply earn_achievement_holds.
Qed.

Lemma earn_achievement_idempotent_witness :
  let a := mkAchievement "first" "First" "" "misc" 120 0 [] in
  let p' := Player.earn_achievement (new_player "p1" "alice" 0) a 5 in
  _achievements p' = [a] /\ total_points p' = 120 /\ level p' = 2 /\
  Player.earn_achievement p' a 9 = p'.
Proof.
  intros a p'.
  destruct (earn_achievement_idempotent (new_player "p1" "alice" 0) a 5)
    as (_ & Hnew & Hagain).
  destruct Hnew as (Hach & Htp & _ & _ & Hup).
  { intros a0 []. }
  split; [exact Hach|]. split; [exact Htp|].
  split; [apply Hup; simpl; lia|].
  apply (Hagain a 9). reflexivity.
Defined.

(** ** [complete_challenge] *)




(** The loop [for skill in challenge.skills] adds one per listed entry
    and touches nothing but the skill table. *)
Lemma bump_skills (l : list Skill) (p : Player) :
  let p' := fold_left Player.bump_skill l p in
  (forall s, _skill_levels p' s
             = _skill_levels p s + Z.of_nat (occurrences s l)) /\
  level p' = level p /\ experience p' = experience p /\
  total_points p' = total_points p /\
  _achievements p' = _achievements p /\ _challenges p' = _challenges p /\
  player_id p' = player_id p.
Proof.
  revert p. induction l as [|x l IH]; intros p; simpl.
  - split; [intros s; unfold occurrences; simpl; lia | tauto].
  - destruct (IH (Player.bump_skill p x))
      as (Hs & Hl & He & Ht & Ha & Hc & Hi).
    split; [|simpl in *; tauto].
    intros s. rewrite Hs. unfold occurrences. simpl.
    destruct (Skill_eqb s x); simpl length; lia.
Qed.



(** * Properties of [GameEngine] *)

(** ** The registry *)

Lemma players_get_None (ps : list (string * Player)) (pid : string) :
  players_get ps pid = None <-> ~ In pid (map fst ps).
Proof.
  induction ps as [|[k q] ps IH]; simpl.
  - tauto.
  - destruct (String.eqb_spec k pid) as [->|Hne].
    + split; [discriminate | tauto].
    + rewrite IH. tauto.
Qed.

Lemma players_get_Some (ps : list (string * Player)) (pid : string) :
  (exists p, players_get ps pid = Some p) <-> In pid (map fst ps).
Proof.
  destruct (players_get ps pid) as [p|] eqn:E.
  - split; [intros _ | intros _; now exists p].
    destruct (in_dec String.string_dec pid (map fst ps)) as [H|H];
      [exact H|].
    apply players_get_None in H. congruence.
  - split; [intros (p & Hp); discriminate|].
    intros Hin. apply players_get_None in E. tauto.
Qed.

Lemma players_set_absent (ps : list (string * Player)) (pid : string)
    (p : Player) :
  players_get ps pid = None -> players_set ps pid p = ps ++ [(pid, p)].
Proof.
  induction ps as [|[k q] ps IH]; simpl; intros H.
  - reflexivity.
  - destruct (String.eqb k pid); [discriminate|]. now rewrite IH.
Qed.

Lemma players_get_set (ps : list (string * Player)) (k k' : string)
    (p : Player) :
  players_get (players_set ps k p) k'
    = if String.eqb k k' then Some p else players_get ps k'.
Proof.
  induction ps as [|[j q] ps IH]; simpl.
  - reflexivity.
  - destruct (String.eqb_spec j k) as [->|Hjk]; simpl.
    + destruct (String.eqb k k'); reflexivity.
    + destruct (String.eqb_spec j k') as [->|Hjk'].
      * destruct (String.eqb_spec k k') as [->|_]; [congruence|reflexivity].
      * exact IH.
Qed.

Lemma players_set_keys (ps : list (string * Player)) (pid : string)
    (p q : Player) :
  players_get ps pid = Some q ->
  map fst (players_set ps pid p) = map fst ps.
Proof.
  induction ps as [|[k r] ps IH]; simpl; intros H.
  - discriminate.
  - destruct (String.eqb k pid); simpl; [reflexivity|]. now rewrite IH.
Qed.

(** C9.  [register_player] raises exactly when the id is already a key of
    the registry; the exception is the duplicate-id [ValueError] and the
    engine is unchanged.  Otherwise a fresh player (level 1, experience 0,
    no points, no achievements, no challenges, every skill at 0) is
    stored under the id, after the players already there, and returned;
    the other players and the rest of the engine are untouched. *)
Theorem register_player_spec (e : GameEngine) (pid uname : string)
    (now : Z) :
  let r := GameEngine.register_player e pid uname now in
  ((exists exn, fst r = Raise exn) <-> In pid (map fst (_players e))) /\
  (forall exn, fst r = Raise exn ->
     exn = ValueError (GameEngine.duplicate_message pid) /\ snd r = e) /\
  (~ In pid (map fst (_players e)) ->
     exists player,
       fst r = Ok player /\
       player = mkPlayer pid uname 1 0 0 [] ∅ (fun _ => 0) now now /\
       _players (snd r) = _players e ++ [(pid, player)] /\
       GameEngine.get_player (snd r) pid = Some player /\
       (forall pid', pid' <> pid ->
          GameEngine.get_player (snd r) pid'
            = GameEngine.get_player e pid') /\
       _achievement_rules (snd r) = _achievement_rules e /\
       _challenge_catalog (snd r) = _challenge_catalog e /\
       _event_listeners (snd r) = _event_listeners e /\
       store (snd r) = store e /\ trace (snd r) = trace e).
Proof.
  intros r. subst r. unfold GameEngine.register_player.
  destruct (players_get (_players e) pid) as [q|] eqn:E; simpl.
  - assert (Hin : In pid (map fst (_players e))).
    { apply players_get_Some. now exists q. }
    split; [split; [intros _; exact Hin | intros _; eauto]|].
    split; [intros exn [= <-]; split; reflexivity | tauto].
  - assert (Hnin : ~ In pid (map fst (_players e))).
    { now apply players_get_None. }
    split; [split; [intros (exn & Hexn); discriminate | tauto]|].
    split; [intros exn Hexn; discriminate|].
    intros _. exists (new_player pid uname now).
    split; [reflexivity|]. split; [reflexivity|].
    split; [now apply players_set_absent|].
    unfold GameEngine.get_player; simpl.
    split; [rewrite players_get_set, String.eqb_refl; reflexivity|].
    split; [|tauto].
    intros pid' Hne. rewrite players_get_set.
    destruct (String.eqb_spec pid pid'); [congruence | reflexivity].
Qed.

Lemma register_player_spec_witness :
  let r := GameEngine.register_player new_engine "p1" "alice" 0 in
  let r2 := GameEngine.register_player (snd r) "p1" "bob" 1 in
  fst r = Ok (new_player "p1" "alice" 0) /\
  fst r2 = Raise (ValueError "Player p1 already exists") /\
  snd r2 = snd r.
Proof.
  intros r r2.
  destruct (register_player_spec new_engine "p1" "alice" 0)
    as (_ & _ & Hfresh).
  destruct Hfresh as (player & Hok & Hp & _); [simpl; tauto|].
  destruct (register_player_spec (snd r) "p1" "bob" 1) as (_ & Hdup & _).
  destruct (Hdup (ValueError "Player p1 already exists")) as (_ & Hsame);
    [reflexivity|].
  split; [|split; [reflexivity | exact Hsame]].
  fold r in Hok. rewrite Hok, Hp. reflexivity.
Defined.

(** ** Statistics *)

Lemma py_truediv_zero (a : Z) :
  GameEngine.py_truediv a 0 = Raise ZeroDivisionError.
Proof. reflexivity. Qed.


(** ** The leaderboard *)

Section SortedReverse.

Context {A : Type} (key : A -> Z).

Lemma insert_desc_perm (x : A) (l : list A) :
  Permutation (GameEngine.insert_desc key x l) (x :: l).
Proof.
  induction l as [|y ys IH]; simpl.
  - reflexivity.
  - destruct (key x <? key y).
    + rewrite IH. apply perm_swap.
    + reflexivity.
Qed.

Lemma sorted_reverse_perm (l : list A) :
  Permutation (GameEngine.sorted_reverse key l) l.
Proof.
  induction l as [|x l IH]; simpl.
  - reflexivity.
  - rewrite insert_desc_perm. now constructor.
Qed.

Lemma insert_desc_sorted (x : A) (l : list A) :
  StronglySorted (key_ge key) l ->
  StronglySorted (key_ge key) (GameEngine.insert_desc key x l).
Proof.
  induction 1 as [|y ys Hs IH Hall]; simpl.
  - constructor; constructor.
  - destruct (Z.ltb_spec (key x) (key y)) as [Hlt|Hge].
    + constructor; [exact IH|].
      eapply Permutation_Forall.
      * symmetry. apply insert_desc_perm.
      * constructor; [unfold key_ge; lia | exact Hall].
    + constructor; [constructor; assumption|].
      constructor; [exact Hge|].
      eapply Forall_impl; [exact Hall|].
      intros z Hz. unfold key_ge in *. simpl in *. lia.
Qed.

Lemma sorted_reverse_sorted (l : list A) :
  StronglySorted (key_ge key) (GameEngine.sorted_reverse key l).
Proof.
  induction l as [|x l IH]; simpl.
  - constructor.
  - now apply insert_desc_sorted.
Qed.



End SortedReverse.

Lemma enumerate_from_nth {A : Type} (l : list A) (i : Z) (k : nat) :
  nth_error (GameEngine.enumerate_from i l) k
    = option_map (fun x => (i + Z.of_nat k, x)) (nth_error l k).
Proof.
  revert i k. induction l as [|x l IH]; intros i [|k]; simpl; try reflexivity.
  - now rewrite Z.add_0_r.
  - rewrite IH. destruct (nth_error l k); simpl; [|reflexivity].
    do 2 f_equal. lia.
Qed.

Lemma enumerate_from_snd {A : Type} (l : list A) (i : Z) :
  map snd (GameEngine.enumerate_from i l) = l.
Proof.
  revert i. induction l as [|x l IH]; intros i; simpl; [reflexivity|].
  now rewrite IH.
Qed.




(** ** The achievement-rule pass *)

Lemma earn_achievement_frame (p : Player) (a : Achievement) (now : Z) :
  let p' := Player.earn_achievement p a now in
  player_id p' = player_id p /\ _challenges p' = _challenges p /\
  _skill_levels p' = _skill_levels p.
Proof.
  unfold Player.earn_achievement.
  destruct (negb (Player.holds p (a_id a))); [|tauto].
  match goal with
  | |- context [Player.add_experience ?q ?x ?n] =>
      destruct (add_experience_frame q x n)
        as (Hi & _ & _ & _ & Hc & Hs & _)
  end.
  simpl in *. tauto.
Qed.

Lemma holds_app (p : Player) (a : Achievement) (aid : string) (now : Z) :
  Player.holds p (a_id a) = false ->
  Player.holds (Player.earn_achievement p a now) aid
    = Player.holds p aid || String.eqb (a_id a) aid.
Proof.
  intros H. rewrite earn_achievement_new by exact H.
  unfold Player.holds at 1.
  match goal with
  | |- context [Player.add_experience ?q ?x ?n] =>
      destruct (add_experience_frame q x n) as (_ & _ & _ & Ha & _)
  end.
  rewrite Ha. simpl. rewrite existsb_app. simpl.
  now rewrite orb_false_r.
Qed.

Lemma earn_achievement_appends (p : Player) (a : Achievement) (now : Z) :
  Player.holds p (a_id a) = false ->
  _achievements (Player.earn_achievement p a now) = _achievements p ++ [a] /\
  total_points (Player.earn_achievement p a now)
    = total_points p + a_points a.
Proof.
  intros H. rewrite earn_achievement_new by exact H.
  match goal with
  | |- context [Player.add_experience ?q ?x ?n] =>
      destruct (add_experience_frame q x n) as (_ & _ & Ht & Ha & _)
  end.
  rewrite Ht, Ha. split; reflexivity.
Qed.

(** The three cases of one turn of the loop. *)
Lemma check_rules_step (e : GameEngine) (now : Z) (rule : AchievementRule)
    (rest : list AchievementRule) (p : Player) :
  (Player.holds p (a_id (achievement rule)) = true ->
     GameEngine.check_rules e now (rule :: rest) p
       = GameEngine.check_rules e now rest p) /\
  (Player.holds p (a_id (achievement rule)) = false ->
   check rule (store e) p = false ->
     GameEngine.check_rules e now (rule :: rest) p
       = GameEngine.check_rules e now rest p) /\
  (Player.holds p (a_id (achievement rule)) = false ->
   check rule (store e) p = true ->
     let p1 := Player.earn_achievement p (achievement rule) now in
     let r := GameEngine.check_rules e now rest p1 in
     GameEngine.check_rules e now (rule :: rest) p
       = (fst (fst r),
          earned_event e (player_id p) (achievement rule) :: snd (fst r),
          achievement rule :: snd r)).
Proof.
  split; [|split]; simpl; fold (Player.holds p (a_id (achievement rule))).
  - intros ->. reflexivity.
  - intros -> ->. reflexivity.
  - intros Hh Hc. rewrite Hh, Hc. simpl.
    destruct (earn_achievement_frame p (achievement rule) now) as (Hi & _).
    simpl in Hi. rewrite Hi.
    destruct (GameEngine.check_rules e now rest
                (Player.earn_achievement p (achievement rule) now))
      as [[p2 evs] news].
    reflexivity.
Qed.

(** What a whole pass does: the granted achievements are taken from the
    rules in registration order, none of them was held when the pass
    began, no id is granted twice, each is appended to the player's
    collection, and each fires one [achievement_earned] event, in the
    same order. *)
Lemma check_rules_pass (e : GameEngine) (now : Z)
    (rules : list AchievementRule) (p : Player) :
  let r := GameEngine.check_rules e now rules p in
  let p' := fst (fst r) in
  let evs := snd (fst r) in
  let news := snd r in
  evs = map (earned_event e (player_id p)) news /\
  sublist news (map achievement rules) /\
  _achievements p' = _achievements p ++ news /\
  (forall a, In a news -> Player.holds p (a_id a) = false) /\
  NoDup (map a_id news) /\
  player_id p' = player_id p /\
  (forall aid, Player.holds p' aid
               = Player.holds p aid
                 || existsb (fun a => String.eqb (a_id a) aid) news).
Proof.
  revert p. induction rules as [|rule rest IH]; intros p.
  - simpl. rewrite app_nil_r.
    split; [reflexivity|]. split; [constructor|]. split; [reflexivity|].
    split; [intros a []|]. split; [constructor|]. split; [reflexivity|].
    intros aid. now rewrite orb_false_r.
  - destruct (check_rules_step e now rule rest p) as (Hheld & Hfalse & Htrue).
    destruct (Player.holds p (a_id (achievement rule))) eqn:Hh.
    { rewrite Hheld by reflexivity.
      destruct (IH p) as (H1 & H2 & H3 & H4 & H5 & H6 & H7).
      repeat (split; [assumption|]).
      split; [now apply sublist_cons|]. tauto. }
    destruct (check rule (store e) p) eqn:Hc.
    2:{ rewrite Hfalse by reflexivity.
        destruct (IH p) as (H1 & H2 & H3 & H4 & H5 & H6 & H7).
        split; [assumption|].
        split; [now apply sublist_cons|]. tauto. }
    rewrite Htrue by reflexivity. cbv zeta. simpl fst. simpl snd.
    set (p1 := Player.earn_achievement p (achievement rule) now).
    destruct (IH p1) as (H1 & H2 & H3 & H4 & H5 & H6 & H7).
    destruct (earn_achievement_frame p (achievement rule) now)
      as (Hid & _ & _). fold p1 in Hid. simpl in Hid.
    assert (Hach : _achievements p1 = _achievements p ++ [achievement rule]).
    { now apply earn_achievement_appends. }
    split; [simpl; rewrite H1, Hid; reflexivity|].
    split; [simpl; now apply sublist_skip|].
    split; [rewrite H3, Hach, <- app_assoc; reflexivity|].
    split.
    { intros a [<-|Hin]; [exact Hh|].
      specialize (H4 a Hin). subst p1.
      rewrite holds_app in H4 by exact Hh.
      now apply orb_false_elim in H4. }
    split.
    { simpl. constructor; [|exact H5].
      rewrite list_elem_of_In, in_map_iff. intros (a & Heq & Hin).
      specialize (H4 a Hin). subst p1.
      rewrite holds_app in H4 by exact Hh.
      apply orb_false_elim in H4. destruct H4 as (_ & H4).
      rewrite Heq, String.eqb_refl in H4. discriminate. }
    split; [congruence|].
    intros aid. rewrite H7. subst p1. rewrite holds_app by exact Hh.
    simpl. now rewrite orb_assoc.
Qed.

(** ** Counting [achievement_earned] events *)

Lemma earned_events_app (tr1 tr2 : list Fired) (pid aid : string) :
  earned_events (tr1 ++ tr2) pid aid
    = (earned_events tr1 pid aid + earned_events tr2 pid aid)%nat.
Proof. unfold earned_events. now rewrite List.filter_app, length_app. Qed.

Lemma earned_events_map (e : GameEngine) (pid pid' aid : string)
    (news : list Achievement) :
  earned_events (map (earned_event e pid) news) pid' aid
    = if String.eqb pid pid'
      then length (List.filter (fun a => String.eqb (a_id a) aid) news)
      else 0%nat.
Proof.
  unfold earned_events. induction news as [|a news IH]; simpl.
  - now destruct (String.eqb pid pid').
  - unfold earned_for at 1. simpl.
    destruct (String.eqb pid pid'); simpl; [|exact IH].
    destruct (String.eqb (a_id a) aid); simpl; now rewrite IH.
Qed.

Lemma count_id_absent (aid : string) (news : list Achievement) :
  ~ In aid (map a_id news) ->
  List.filter (fun a => String.eqb (a_id a) aid) news = [].
Proof.
  induction news as [|a news IH]; simpl; intros H; [reflexivity|].
  destruct (String.eqb_spec (a_id a) aid); [tauto|]. apply IH. tauto.
Qed.

Lemma count_id_nodup (aid : string) (news : list Achievement) :
  NoDup (map a_id news) ->
  length (List.filter (fun a => String.eqb (a_id a) aid) news)
    = if existsb (fun a => String.eqb (a_id a) aid) news
      then 1%nat else 0%nat.
Proof.
  induction news as [|a news IH]; simpl; intros Hnd; [reflexivity|].
  apply NoDup_cons in Hnd. destruct Hnd as (Hnot & Hnd).
  rewrite list_elem_of_In in Hnot.
  destruct (String.eqb_spec (a_id a) aid) as [<-|Hne]; simpl.
  - now rewrite count_id_absent.
  - now apply IH.
Qed.

Lemma holds_achievements (p q : Player) (aid : string) :
  _achievements p = _achievements q -> Player.holds p aid = Player.holds q aid.
Proof. intros H. unfold Player.holds. now rewrite H. Qed.

(** The events of a pass account exactly for the achievements it adds. *)
Lemma check_rules_counts (e : GameEngine) (now : Z)
    (rules : list AchievementRule) (p : Player) (pid aid : string) :
  let r := GameEngine.check_rules e now rules p in
  ((if String.eqb (player_id p) pid
    then if Player.holds p aid then 1 else 0
    else 0)
   + earned_events (snd (fst r)) pid aid
   = if String.eqb (player_id p) pid
     then if Player.holds (fst (fst r)) aid then 1 else 0
     else 0)%nat.
Proof.
  intros r.
  destruct (check_rules_pass e now rules p)
    as (Hev & _ & _ & Hfresh & Hnd & _ & Hh).
  fold r in Hev, Hfresh, Hnd, Hh.
  rewrite Hev, earned_events_map.
  destruct (String.eqb (player_id p) pid); [|reflexivity].
  rewrite Hh, count_id_nodup by exact Hnd.
  destruct (Player.holds p aid) eqn:Hp; simpl.
  - destruct (existsb (λ a, String.eqb (a_id a) aid) (snd r)) eqn:Hex;
      [|reflexivity].
    apply existsb_exists in Hex. destruct Hex as (a & Hin & Heq).
    apply String.eqb_eq in Heq. subst aid.
    rewrite (Hfresh a Hin) in Hp. discriminate.
  - reflexivity.
Qed.

Lemma complete_challenge_frame (st : Store) (p : Player) (cid : string)
    (now : Z) :
  let p' := snd (fst (Player.complete_challenge st p cid now)) in
  player_id p' = player_id p /\ _achievements p' = _achievements p.
Proof.
  unfold Player.complete_challenge.
  destruct (_challenges p !! cid) as [l|]; [|simpl; tauto].
  destruct (c_completed (st l)); simpl; [tauto|].
  match goal with
  | |- context [fold_left Player.bump_skill ?l ?q] =>
      destruct (bump_skills l q) as (_ & _ & _ & _ & Ha & _ & Hi)
  end.
  rewrite Ha, Hi.
  match goal with
  | |- context [Player.add_experience ?q ?x ?n] =>
      destruct (add_experience_frame q x n) as (Hi' & _ & _ & Ha' & _)
  end.
  rewrite Ha', Hi'. simpl. tauto.
Qed.

(** Writing a pass back to the registry keeps the account of events. *)
Lemma earned_once_pass (e e1 : GameEngine) (pid : string) (p0 p1 : Player)
    (pre : list Fired) (now : Z) :
  keyed e -> earned_once e ->
  GameEngine.get_player e pid = Some p0 ->
  _players e1 = _players e -> trace e1 = trace e ->
  player_id p1 = player_id p0 -> _achievements p1 = _achievements p0 ->
  (forall pid' aid, earned_events pre pid' aid = 0%nat) ->
  let r := GameEngine._check_achievements e1 now p1 in
  let e' := GameEngine.set_trace
              (GameEngine.set_players e1
                 (players_set (_players e1) pid (fst (fst r))))
              (trace e1 ++ pre ++ snd (fst r)) in
  keyed e' /\ earned_once e'.
Proof.
  intros Hk Ho Hget Hps Htr Hid Hach Hpre r e'.
  pose proof (Hk pid p0 Hget) as Hp0.
  destruct (check_rules_pass e1 now (_achievement_rules e1) p1)
    as (_ & _ & _ & _ & _ & Hid' & _).
  fold (GameEngine._check_achievements e1 now p1) in Hid'. fold r in Hid'.
  split.
  - intros pid' q. subst e'. unfold GameEngine.get_player. simpl.
    rewrite players_get_set, Hps.
    destruct (String.eqb_spec pid pid') as [<-|Hne].
    + intros [= <-]. congruence.
    + apply Hk.
  - intros pid' aid. subst e'. unfold GameEngine.get_player. simpl.
    rewrite !earned_events_app, Hpre, Htr, players_get_set, Hps. simpl.
    pose proof (check_rules_counts e1 now (_achievement_rules e1) p1
                  pid' aid) as Hc.
    fold (GameEngine._check_achievements e1 now p1) in Hc. fold r in Hc.
    cbv zeta in Hc.
    rewrite Hid, Hp0, (holds_achievements p1 p0 aid Hach) in Hc.
    specialize (Ho pid' aid). unfold GameEngine.get_player in Ho.
    destruct (String.eqb_spec pid pid') as [<-|Hne].
    + unfold GameEngine.get_player in Hget. rewrite Hget in Ho.
      rewrite Ho. exact Hc.
    + rewrite Ho. lia.
Qed.

Lemma start_challenge_frame (st : Store) (p : Player) (l : loc) :
  let p' := Player.start_challenge st p l in
  player_id p' = player_id p /\ _achievements p' = _achievements p /\
  level p' = level p /\ experience p' = experience p /\
  total_points p' = total_points p.
Proof.
  unfold Player.start_challenge.
  destruct (_challenges p !! c_id (st l)); simpl; tauto.
Qed.

Lemma exec_earned_once (e : GameEngine) (step : Z * Op) :
  keyed e -> earned_once e ->
  keyed (exec e step) /\ earned_once (exec e step).
Proof.
  intros Hk Ho. destruct step as [now op]. unfold exec. simpl.
  destruct op as [pid uname|r|c|pid cid|pid cid|pid amount|event listener].
  - (* register_player *)
    unfold GameEngine.register_player.
    destruct (players_get (_players e) pid) as [q|] eqn:E; simpl;
      [tauto|].
    split.
    + intros pid' q. unfold GameEngine.get_player. simpl.
      rewrite players_get_set.
      destruct (String.eqb_spec pid pid') as [<-|Hne].
      * intros [= <-]. reflexivity.
      * apply Hk.
    + intros pid' aid. specialize (Ho pid' aid).
      unfold GameEngine.get_player in *. simpl.
      rewrite players_get_set.
      destruct (String.eqb_spec pid pid') as [<-|Hne]; [|exact Ho].
      rewrite E in Ho. exact Ho.
  - split; [exact Hk | exact Ho].
  - split; [exact Hk | exact Ho].
  - (* assign_challenge *)
    unfold GameEngine.assign_challenge.
    destruct (GameEngine.get_player e pid) as [p|] eqn:E; [|simpl; tauto].
    destruct (_challenge_catalog e !! cid) as [l|]; [|simpl; tauto].
    simpl.
    destruct (start_challenge_frame (store e) p l) as (Hi & Ha & _).
    split.
    + intros pid' q. unfold GameEngine.get_player. simpl.
      rewrite players_get_set.
      destruct (String.eqb_spec pid pid') as [<-|Hne].
      * intros [= <-]. rewrite Hi. now apply Hk.
      * apply Hk.
    + intros pid' aid. specialize (Ho pid' aid).
      unfold GameEngine.get_player in *. simpl.
      rewrite players_get_set.
      destruct (String.eqb_spec pid pid') as [<-|Hne]; [|exact Ho].
      rewrite E in Ho.
      now rewrite (holds_achievements _ p aid Ha).
  - (* complete_player_challenge *)
    unfold GameEngine.complete_player_challenge.
    destruct (GameEngine.get_player e pid) as [p|] eqn:E; [|simpl; tauto].
    pose proof (complete_challenge_frame (store e) p cid now) as Hf.
    destruct (Player.complete_challenge (store e) p cid now)
      as [[success p1] st1].
    simpl in Hf. destruct Hf as (Hi & Ha).
    destruct success; [|simpl; tauto].
    pose proof (earned_once_pass e (GameEngine.set_store e st1) pid p p1
                  [GameEngine._trigger_event (GameEngine.set_store e st1)
                     "challenge_completed" (player_id p1) (ChallengeId cid)]
                  now Hk Ho E eq_refl eq_refl Hi Ha) as Hpass.
    cbv zeta in Hpass.
    destruct (GameEngine._check_achievements (GameEngine.set_store e st1)
                now p1) as [[p2 evs] news].
    apply Hpass. intros pid' aid. reflexivity.
  - (* award_experience *)
    unfold GameEngine.award_experience.
    destruct (GameEngine.get_player e pid) as [p|] eqn:E; [|simpl; tauto].
    pose proof (add_experience_frame p amount now) as Hf.
    destruct (Player.add_experience p amount now) as [leveled_up p1].
    simpl in Hf. destruct Hf as (Hi & _ & _ & Ha & _).
    pose proof (earned_once_pass e e pid p p1
                  (if leveled_up
                   then [GameEngine._trigger_event e "level_up"
                           (player_id p1) NoArg]
                   else [])
                  now Hk Ho E eq_refl eq_refl Hi Ha) as Hpass.
    cbv zeta in Hpass.
    destruct (GameEngine._check_achievements e now p1) as [[p2 evs] news].
    apply Hpass. intros pid' aid. now destruct leveled_up.
  - (* on *)
    unfold GameEngine.on.
    destruct (_event_listeners e !! event); [|tauto].
    split; [exact Hk | exact Ho].
Qed.

Lemma run_earned_once (steps : list (Z * Op)) (e : GameEngine) :
  keyed e -> earned_once e ->
  keyed (run e steps) /\ earned_once (run e steps).
Proof.
  revert e. induction steps as [|step steps IH]; intros e Hk Ho.
  - split; assumption.
  - simpl. destruct (exec_earned_once e step Hk Ho) as (Hk' & Ho').
    now apply IH.
Qed.

Lemma run_app (e : GameEngine) (s1 s2 : list (Z * Op)) :
  run e (s1 ++ s2) = run (run e s1) s2.
Proof. unfold run. apply fold_left_app. Qed.

Lemma earn_achievement_level (p : Player) (a : Achievement) (now : Z) :
  level p <= level (Player.earn_achievement p a now).
Proof.
  unfold Player.earn_achievement.
  destruct (negb (Player.holds p (a_id a))); [|lia].
  rewrite add_experience_level_step. simpl.
  match goal with |- context [if ?b then _ else _] => destruct b end; lia.
Qed.




(** ** The [level_up] event *)

Lemma level_up_events_app (tr1 tr2 : list Fired) :
  level_up_events (tr1 ++ tr2)
    = (level_up_events tr1 + level_up_events tr2)%nat.
Proof. unfold level_up_events. now rewrite List.filter_app, length_app. Qed.

Lemma level_up_events_earned (e : GameEngine) (pid : string)
    (news : list Achievement) :
  level_up_events (map (earned_event e pid) news) = 0%nat.
Proof.
  unfold level_up_events. induction news as [|a news IH]; simpl;
    [reflexivity | exact IH].
Qed.

Lemma check_achievements_no_level_up (e : GameEngine) (now : Z)
    (p : Player) :
  level_up_events (snd (fst (GameEngine._check_achievements e now p)))
    = 0%nat.
Proof.
  destruct (check_rules_pass e now (_achievement_rules e) p) as (Hev & _).
  unfold GameEngine._check_achievements. rewrite Hev.
  apply level_up_events_earned.
Qed.

(** C8.  [level_up] is fired by [award_experience] alone, once when its
    own call of [add_experience] reports a level-up and not otherwise.
    [complete_player_challenge] and the achievement pass fire no
    [level_up], whatever happens to the level: the level-ups that come
    from the points of an achievement or of a challenge go unannounced,
    since those paths drop the result of [add_experience]. *)
Theorem level_up_only_from_award :
  (forall e pid amount now,
     let r := GameEngine.award_experience e pid amount now in
     exists evs,
       trace (snd r) = trace e ++ evs /\
       level_up_events evs = (if fst r then 1 else 0)%nat /\
       (forall p, GameEngine.get_player e pid = Some p ->
                  fst r = fst (Player.add_experience p amount now))) /\
  (forall e pid cid now,
     let r := GameEngine.complete_player_challenge e pid cid now in
     exists evs,
       trace (snd r) = trace e ++ evs /\ level_up_events evs = 0%nat) /\
  (forall e now p,
     level_up_events (snd (fst (GameEngine._check_achievements e now p)))
       = 0%nat) /\
  (forall e now op,
     match op with
     | AwardExperience _ _ | CompletePlayerChallenge _ _ => True
     | _ => trace (exec e (now, op)) = trace e
     end) /\
  (let e := run new_engine welcome_setup in
   let r := GameEngine.award_experience e "p1" 0 5 in
   option_map level (GameEngine.get_player e "p1") = Some 1 /\
   option_map level (GameEngine.get_player (snd r) "p1") = Some 2 /\
   fst r = false /\ level_up_events (trace (snd r)) = 0%nat) /\
  (let e := run new_engine big_setup in
   let r := GameEngine.complete_player_challenge e "p1" "big" 5 in
   option_map level (GameEngine.get_player e "p1") = Some 1 /\
   option_map level (GameEngine.get_player (snd r) "p1") = Some 2 /\
   fst r = true /\ level_up_events (trace (snd r)) = 0%nat).
Proof.
  split; [|split; [|split; [|split; [|split]]]].
  - intros e pid amount now r. subst r.
    unfold GameEngine.award_experience.
    destruct (GameEngine.get_player e pid) as [p|] eqn:E.
    2:{ exists []. simpl. rewrite app_nil_r.
        split; [reflexivity|]. split; [reflexivity | discriminate]. }
    destruct (Player.add_experience p amount now) as [leveled_up p1] eqn:Ha.
    pose proof (check_achievements_no_level_up e now p1) as Hno.
    destruct (GameEngine._check_achievements e now p1) as [[p2 evs] news].
    simpl in Hno. simpl.
    eexists. split; [reflexivity|].
    split; [|intros q [= <-]; rewrite Ha; reflexivity].
    rewrite level_up_events_app, Hno. now destruct leveled_up.
  - intros e pid cid now r. subst r.
    unfold GameEngine.complete_player_challenge.
    destruct (GameEngine.get_player e pid) as [p|] eqn:E.
    2:{ exists []. simpl. now rewrite app_nil_r. }
    destruct (Player.complete_challenge (store e) p cid now)
      as [[success p1] st1].
    destruct success.
    2:{ exists []. simpl. now rewrite app_nil_r. }
    pose proof (check_achievements_no_level_up
                  (GameEngine.set_store e st1) now p1) as Hno.
    destruct (GameEngine._check_achievements (GameEngine.set_store e st1)
                now p1) as [[p2 evs] news].
    simpl in Hno. simpl.
    eexists. split; [reflexivity|].
    change (level_up_events evs = 0%nat). exact Hno.
  - apply check_achievements_no_level_up.
  - intros e now op. destruct op; try exact I; unfold exec; simpl.
    + unfold GameEngine.register_player.
      now destruct (players_get (_players e) pid).
    + reflexivity.
    + reflexivity.
    + unfold GameEngine.assign_challenge.
      destruct (GameEngine.get_player e pid); [|reflexivity].
      now destruct (_challenge_catalog e !! cid).
    + unfold GameEngine.on. now destruct (_event_listeners e !! event).
  - vm_compute. repeat split; reflexivity.
  - vm_compute. repeat split; reflexivity.
Qed.

Lemma level_up_only_from_award_witness :
  let e := run new_engine level5_setup in
  let r := GameEngine.award_experience e "p1" 100 3 in
  fst r = true /\
  exists evs, trace (snd r) = trace e ++ evs /\ level_up_events evs = 1%nat.
Proof.
  intros e r.
  destruct level_up_only_from_award as (Haward & _).
  destruct (Haward e "p1" 100 3) as (evs & Htr & Hcount & Hret).
  fold r in Htr, Hcount, Hret.
  assert (Hr : fst r = true).
  { apply (Hret (new_player "p1" "alice" 0)). reflexivity. }
  split; [exact Hr|].
  exists evs. split; [exact Htr|]. rewrite Hcount, Hr. reflexivity.
Defined.

(** ** Progression invariants *)

Lemma progression_add_experience (strict : bool) (p : Player)
    (x now : Z) :
  progression strict p -> amount_ok strict x ->
  progression strict (snd (Player.add_experience p x now)).
Proof.
  intros Hp Hx. unfold Player.add_experience; simpl.
  destruct (Z.leb_spec (100 * level p) (experience p + x));
    progress_cases strict.
Qed.

Lemma progression_earn (strict : bool) (p : Player) (a : Achievement)
    (now : Z) :
  progression strict p -> amount_ok strict (a_points a) ->
  progression strict (Player.earn_achievement p a now) /\
  total_points p <= total_points (Player.earn_achievement p a now).
Proof.
  intros Hp Hx. unfold Player.earn_achievement.
  destruct (negb (Player.holds p (a_id a))); [|split; [exact Hp | lia]].
  split.
  - apply progression_add_experience; [|exact Hx].
    progress_cases strict.
  - match goal with
    | |- context [Player.add_experience ?q ?y ?n] =>
        destruct (add_experience_frame q y n) as (_ & _ & Ht & _)
    end.
    rewrite Ht. simpl. unfold amount_ok in Hx. lia.
Qed.

Lemma progression_check_rules (strict : bool) (e : GameEngine) (now : Z)
    (rules : list AchievementRule) (p : Player) :
  Forall (fun r => amount_ok strict (a_points (achievement r))) rules ->
  progression strict p ->
  progression strict (fst (fst (GameEngine.check_rules e now rules p))) /\
  total_points p
    <= total_points (fst (fst (GameEngine.check_rules e now rules p))).
Proof.
  intros Hrules. revert p.
  induction Hrules as [|rule rest Hr Hrest IH]; intros p Hp.
  - simpl. split; [exact Hp | lia].
  - destruct (check_rules_step e now rule rest p) as (Hheld & Hfalse & Htrue).
    destruct (Player.holds p (a_id (achievement rule))) eqn:Hh.
    { rewrite Hheld by reflexivity. now apply IH. }
    destruct (check rule (store e) p) eqn:Hc.
    2:{ rewrite Hfalse by reflexivity. now apply IH. }
    rewrite Htrue by reflexivity. cbv zeta. simpl fst.
    destruct (progression_earn strict p (achievement rule) now Hp Hr)
      as (Hp1 & Hle).
    destruct (IH _ Hp1) as (Hp2 & Hle2).
    split; [exact Hp2 | lia].
Qed.

Lemma progression_bump_skills (strict : bool) (l : list Skill)
    (p : Player) :
  progression strict p -> progression strict (fold_left Player.bump_skill l p).
Proof.
  intros Hp. destruct (bump_skills l p) as (_ & Hl & He & Ht & _).
  unfold progression in *. rewrite Hl, He, Ht. exact Hp.
Qed.

Lemma progression_complete (strict : bool) (st : Store) (p : Player)
    (cid : string) (now : Z) :
  progression strict p ->
  (forall l, amount_ok strict (c_points (st l))) ->
  let r := Player.complete_challenge st p cid now in
  progression strict (snd (fst r)) /\
  total_points p <= total_points (snd (fst r)) /\
  (forall l, amount_ok strict (c_points (snd r l))).
Proof.
  intros Hp Hst. unfold Player.complete_challenge.
  destruct (_challenges p !! cid) as [l|];
    [|simpl; split; [exact Hp | split; [lia | exact Hst]]].
  destruct (c_completed (st l)); simpl;
    [split; [exact Hp | split; [lia | exact Hst]]|].
  pose proof (Hst l) as Hl.
  split; [|split].
  - apply progression_bump_skills, progression_add_experience; [|exact Hl].
    progress_cases strict.
  - match goal with
    | |- context [fold_left Player.bump_skill ?sk ?q] =>
        destruct (bump_skills sk q) as (_ & _ & _ & Ht & _)
    end.
    rewrite Ht.
    match goal with
    | |- context [Player.add_experience ?q ?y ?n] =>
        destruct (add_experience_frame q y n) as (_ & _ & Ht' & _)
    end.
    rewrite Ht'. simpl. unfold amount_ok in Hl. lia.
  - intros l'. unfold store_set.
    destruct (Nat.eqb_spec l' l) as [->|_]; [exact Hl | apply Hst].
Qed.

(** Replacing one player by one that is as good keeps the registry
    sound and loses no points. *)
Lemma players_set_sound (strict : bool) (ps : list (string * Player))
    (pid : string) (p p' : Player) :
  players_get ps pid = Some p ->
  (forall k q, players_get ps k = Some q -> progression strict q) ->
  progression strict p' -> total_points p <= total_points p' ->
  (forall k q, players_get (players_set ps pid p') k = Some q ->
               progression strict q) /\
  (forall k q, players_get ps k = Some q ->
     exists q', players_get (players_set ps pid p') k = Some q' /\
                total_points q <= total_points q').
Proof.
  intros Hget Hall Hp' Hle. split; intros k q; rewrite players_get_set;
    destruct (String.eqb_spec pid k) as [<-|Hne].
  - intros [= <-]. exact Hp'.
  - apply Hall.
  - intros Hq. exists p'. split; [reflexivity|]. congruence.
  - intros Hq. exists q. split; [exact Hq | lia].
Qed.

Lemma exec_sound (strict : bool) (e : GameEngine) (step : Z * Op) :
  sound strict e -> amount_ok strict (op_amount (snd step)) ->
  sound strict (exec e step) /\
  (forall pid p, GameEngine.get_player e pid = Some p ->
     exists p', GameEngine.get_player (exec e step) pid = Some p' /\
                total_points p <= total_points p').
Proof.
  intros (Hps & Hrules & Hst) Hok. destruct step as [now op].
  unfold exec. simpl in *.
  assert (Hsame : forall pid p, GameEngine.get_player e pid = Some p ->
             exists p', GameEngine.get_player e pid = Some p' /\
                        total_points p <= total_points p').
  { intros pid p H. exists p. split; [exact H | lia]. }
  destruct op as [pid uname|r|c|pid cid|pid cid|pid amount|event listener];
    simpl in Hok.
  - (* register_player *)
    unfold GameEngine.register_player.
    destruct (players_get (_players e) pid) as [q|] eqn:E; simpl.
    { split; [split; [exact Hps | split; [exact Hrules | exact Hst]]|].
      exact Hsame. }
    split; [split; [|split; [exact Hrules | exact Hst]]|].
    + intros k q. unfold GameEngine.get_player. simpl.
      rewrite players_get_set.
      destruct (String.eqb_spec pid k) as [<-|Hne]; [|apply Hps].
      intros [= <-]. progress_cases strict.
    + intros k q Hq. unfold GameEngine.get_player in *. simpl.
      rewrite players_get_set.
      destruct (String.eqb_spec pid k) as [<-|Hne]; [congruence|].
      exists q. split; [exact Hq | lia].
  - (* add_achievement_rule *)
    split; [|exact Hsame].
    split; [exact Hps|]. split; [|exact Hst].
    simpl. apply Forall_app. split; [exact Hrules|].
    constructor; [exact Hok | constructor].
  - (* add_challenge *)
    split; [|exact Hsame].
    split; [exact Hps|]. split; [exact Hrules|].
    intros l. simpl. unfold store_set.
    destruct (Nat.eqb l (next_loc e)); [exact Hok | apply Hst].
  - (* assign_challenge *)
    unfold GameEngine.assign_challenge.
    destruct (GameEngine.get_player e pid) as [p|] eqn:E;
      [|simpl; split; [split; [exact Hps | split; assumption] | exact Hsame]].
    destruct (_challenge_catalog e !! cid) as [l|];
      [|simpl; split; [split; [exact Hps | split; assumption] | exact Hsame]].
    simpl.
    destruct (start_challenge_frame (store e) p l)
      as (_ & _ & Hl & He & Ht).
    destruct (players_set_sound strict (_players e) pid p
                (Player.start_challenge (store e) p l) E Hps)
      as (Hall & Hmono).
    { pose proof (Hps pid p E) as Hp. unfold progression in *.
      rewrite Hl, He, Ht. exact Hp. }
    { rewrite Ht. lia. }
    split; [split; [exact Hall | split; assumption] | exact Hmono].
  - (* complete_player_challenge *)
    unfold GameEngine.complete_player_challenge.
    destruct (GameEngine.get_player e pid) as [p|] eqn:E;
      [|simpl; split; [split; [exact Hps | split; assumption] | exact Hsame]].
    pose proof (progression_complete strict (store e) p cid now
                  (Hps pid p E) Hst) as Hc.
    destruct (Player.complete_challenge (store e) p cid now)
      as [[success p1] st1].
    simpl in Hc. destruct Hc as (Hp1 & Hle1 & Hst1).
    destruct success;
      [|simpl; split; [split; [exact Hps | split; assumption] | exact Hsame]].
    pose proof (progression_check_rules strict (GameEngine.set_store e st1)
                  now (_achievement_rules e) p1 Hrules Hp1) as Hchk.
    unfold GameEngine._check_achievements. simpl _achievement_rules.
    destruct (GameEngine.check_rules (GameEngine.set_store e st1) now
                (_achievement_rules e) p1) as [[p2 evs] news].
    simpl in Hchk. destruct Hchk as (Hp2 & Hle2). simpl.
    destruct (players_set_sound strict (_players e) pid p p2 E Hps Hp2)
      as (Hall & Hmono); [lia|].
    split; [split; [exact Hall | split; assumption] | exact Hmono].
  - (* award_experience *)
    unfold GameEngine.award_experience.
    destruct (GameEngine.get_player e pid) as [p|] eqn:E;
      [|simpl; split; [split; [exact Hps | split; assumption] | exact Hsame]].
    pose proof (progression_add_experience strict p amount now
                  (Hps pid p E) Hok) as Hp1.
    pose proof (add_experience_frame p amount now) as Hf.
    destruct (Player.add_experience p amount now) as [leveled_up p1].
    simpl in Hp1, Hf. destruct Hf as (_ & _ & Ht & _).
    pose proof (progression_check_rules strict e now (_achievement_rules e)
                  p1 Hrules Hp1) as Hchk.
    unfold GameEngine._check_achievements.
    destruct (GameEngine.check_rules e now (_achievement_rules e) p1)
      as [[p2 evs] news].
    simpl in Hchk. destruct Hchk as (Hp2 & Hle2). simpl.
    destruct (players_set_sound strict (_players e) pid p p2 E Hps Hp2)
      as (Hall & Hmono); [lia|].
    split; [split; [exact Hall | split; assumption] | exact Hmono].
  - (* on *)
    unfold GameEngine.on.
    destruct (_event_listeners e !! event);
      (split; [split; [exact Hps | split; assumption] | exact Hsame]).
Qed.

Lemma run_sound (strict : bool) (steps : list (Z * Op)) (e : GameEngine) :
  sound strict e ->
  Forall (fun s => amount_ok strict (op_amount (snd s))) steps ->
  sound strict (run e steps) /\
  (forall pid p, GameEngine.get_player e pid = Some p ->
     exists p', GameEngine.get_player (run e steps) pid = Some p' /\
                total_points p <= total_points p').
Proof.
  revert e. induction steps as [|step steps IH]; intros e He Hok.
  - split; [exact He|]. intros pid p H. exists p. split; [exact H | lia].
  - apply Forall_cons in Hok. destruct Hok as (Hstep & Hrest).
    destruct (exec_sound strict e step He Hstep) as (He1 & Hmono1).
    destruct (IH (exec e step) He1 Hrest) as (He2 & Hmono2).
    split; [exact He2|].
    intros pid p Hp. destruct (Hmono1 pid p Hp) as (p1 & Hp1 & Hle1).
    destruct (Hmono2 pid p1 Hp1) as (p2 & Hp2 & Hle2).
    exists p2. split; [exact Hp2 | lia].
Qed.

Lemma new_engine_sound (strict : bool) : sound strict new_engine.
Proof.
  split; [intros pid p; discriminate|].
  split; [constructor|].
  intros l. unfold amount_ok. simpl. split; [lia | intros _; lia].
Qed.

(** C3, as the code has it.  Along every run from a new engine whose
    experience amounts and point values are non-negative, each player has
    [level >= 1], [experience >= 0] and [total_points >= 0], and the
    points of a player never decrease from one operation to a later one.
    The experience stays below [100 * level] when, in addition, no amount
    or point value exceeds 200: a call applies one level-up at most, so a
    larger amount can leave the experience at or above the threshold. *)
Theorem progression_invariants (steps : list (Z * Op)) :
  Forall (fun s => 0 <= op_amount (snd s)) steps ->
  (forall pid p,
     GameEngine.get_player (run new_engine steps) pid = Some p ->
     1 <= level p /\ 0 <= experience p /\ 0 <= total_points p) /\
  (forall s1 s2 pid p,
     steps = s1 ++ s2 ->
     GameEngine.get_player (run new_engine s1) pid = Some p ->
     exists p',
       GameEngine.get_player (run new_engine steps) pid = Some p' /\
       total_points p <= total_points p') /\
  (Forall (fun s => op_amount (snd s) <= 200) steps ->
   forall pid p,
     GameEngine.get_player (run new_engine steps) pid = Some p ->
     experience p < 100 * level p).
Proof.
  intros Hok.
  assert (Hloose : Forall (fun s => amount_ok false (op_amount (snd s)))
                     steps).
  { eapply Forall_impl; [exact Hok|]. intros s Hs. split; [exact Hs|].
    discriminate. }
  split; [|split].
  - intros pid p Hp.
    destruct (run_sound false steps new_engine (new_engine_sound false)
                Hloose) as ((Hps & _) & _).
    destruct (Hps pid p Hp) as (H1 & H2 & H3 & _). auto.
  - intros s1 s2 pid p -> Hp. rewrite run_app.
    apply Forall_app in Hloose. destruct Hloose as (Hl1 & Hl2).
    destruct (run_sound false s1 new_engine (new_engine_sound false) Hl1)
      as (Hs1 & _).
    destruct (run_sound false s2 (run new_engine s1) Hs1 Hl2) as (_ & Hmono).
    now apply Hmono.
  - intros Hcap pid p Hp.
    assert (Hstrict : Forall (fun s => amount_ok true (op_amount (snd s)))
                        steps).
    { rewrite Forall_forall in *. intros s Hs.
      split; [now apply Hok | intros _; now apply Hcap]. }
    destruct (run_sound true steps new_engine (new_engine_sound true)
                Hstrict) as ((Hps & _) & _).
    destruct (Hps pid p Hp) as (_ & _ & _ & H4). now apply H4.
Qed.

Lemma progression_invariants_witness :
  exists p,
    GameEngine.get_player (run new_engine three_players) "a" = Some p /\
    1 <= level p /\ 0 <= experience p /\ 0 <= total_points p /\
    experience p < 100 * level p.
Proof.
  assert (Hok : Forall (fun s => 0 <= op_amount (snd s)) three_players).
  { unfold three_players. repeat constructor; simpl; lia. }
  assert (Hcap : Forall (fun s => op_amount (snd s) <= 200) three_players).
  { unfold three_players. repeat constructor; simpl; lia. }
  destruct (progression_invariants three_players Hok) as (Hinv & _ & Hbound).
  destruct (GameEngine.get_player (run new_engine three_players) "a")
    as [p|] eqn:E; [|vm_compute in E; discriminate].
  exists p. split; [reflexivity|].
  destruct (Hinv "a" p E) as (H1 & H2 & H3).
  split; [exact H1|]. split; [exact H2|]. split; [exact H3|].
  exact (Hbound Hcap "a" p E).
Defined.

(** C3 as stated fails: after one award of 350 points the player is at
    level 2 with 250 points of experience, not below the threshold 200. *)
Lemma experience_bound_fails :
  Forall (fun s => 0 <= op_amount (snd s)) big_award /\
  exists p,
    GameEngine.get_player (run new_engine big_award) "p1" = Some p /\
    level p = 2 /\ experience p = 250 /\
    ~ experience p < 100 * level p.
Proof.
  split.
  - unfold big_award. repeat constructor; simpl; lia.
  - eexists. split; [vm_compute; reflexivity|]. simpl.
    split; [reflexivity|]. split; [reflexivity|]. lia.
Qed.

(** ** Shared challenge objects *)

(** C2 fails on the code.  The catalog entry and the instances held by
    both players are one object: once the first player completes the
    challenge, the entry reads completed, and the second player's
    completion returns [false] and awards nothing. *)
Theorem shared_challenge_completion :
  let e := run new_engine shared_setup in
  let r1 := GameEngine.complete_player_challenge e "p1" "c1" 5 in
  let r2 := GameEngine.complete_player_challenge (snd r1) "p2" "c1" 6 in
  _challenge_catalog e !! "c1" = Some 0%nat /\
  option_map (fun p => _challenges p !! "c1") (GameEngine.get_player e "p1")
    = Some (Some 0%nat) /\
  option_map (fun p => _challenges p !! "c1") (GameEngine.get_player e "p2")
    = Some (Some 0%nat) /\
  c_completed (store e 0%nat) = false /\
  fst r1 = true /\
  c_completed (store (snd r1) 0%nat) = true /\
  fst r2 = false /\
  option_map total_points (GameEngine.get_player (snd r2) "p1") = Some 50 /\
  option_map total_points (GameEngine.get_player (snd r2) "p2") = Some 0.
Proof. vm_compute. repeat split; reflexivity. Qed.

(** The sharing in general: a player who does not yet track the id is
    handed the very location the catalog holds. *)
Lemma assign_challenge_shares (e : GameEngine) (pid cid : string)
    (p : Player) (l : loc) :
  GameEngine.get_player e pid = Some p ->
  _challenge_catalog e !! cid = Some l ->
  _challenges p !! c_id (store e l) = None ->
  let r := GameEngine.assign_challenge e pid cid in
  fst r = true /\ store (snd r) = store e /\
  exists p', GameEngine.get_player (snd r) pid = Some p' /\
             _challenges p' !! c_id (store e l) = Some l.
Proof.
  intros Hp Hl Hnew. unfold GameEngine.assign_challenge.
  rewrite Hp, Hl. simpl.
  split; [reflexivity|]. split; [reflexivity|].
  eexists. unfold GameEngine.get_player. simpl.
  rewrite players_get_set, String.eqb_refl.
  split; [reflexivity|].
  unfold Player.start_challenge. rewrite Hnew. simpl.
  apply lookup_insert_eq.
Qed.

(** * Further properties of [Player] *)

(** X1.  [add_experience] loses nothing: the experience left plus the
    thresholds paid for the levels reached grows by exactly [amount],
    whether the call levels up or not, and the level never goes down. *)
Theorem add_experience_conserves (p : Player) (amount now : Z) :
  lifetime_xp (snd (Player.add_experience p amount now))
    = lifetime_xp p + amount /\
  level p <= level (snd (Player.add_experience p amount now)).
Proof.
  unfold lifetime_xp, Player.add_experience; simpl.
  destruct (100 * level p <=? experience p + amount); simpl; split; lia.
Qed.

(** ** [start_challenge] *)

Lemma start_challenge_tracked (st : Store) (p : Player) (l l0 : loc) :
  _challenges p !! c_id (st l) = Some l0 ->
  Player.start_challenge st p l = p.
Proof. intros H. unfold Player.start_challenge. now rewrite H. Qed.

Lemma start_challenge_lookup (st : Store) (p : Player) (l : loc)
    (cid : string) :
  _challenges (Player.start_challenge st p l) !! cid
    = match _challenges p !! cid with
      | Some l0 => Some l0
      | None => if String.eqb cid (c_id (st l)) then Some l else None
      end.
Proof.
  unfold Player.start_challenge.
  destruct (_challenges p !! c_id (st l)) as [l0|] eqn:E.
  - destruct (_challenges p !! cid) as [l1|] eqn:E1; [reflexivity|].
    destruct (String.eqb_spec cid (c_id (st l))); [congruence | reflexivity].
  - simpl. destruct (String.eqb_spec cid (c_id (st l))) as [->|Hne].
    + rewrite lookup_insert_eq, E. reflexivity.
    + rewrite lookup_insert_ne by congruence.
      now destruct (_challenges p !! cid).
Qed.

(** X2.  [start_challenge] registers a challenge under its id once: a
    player who already tracks the id is returned unchanged and keeps the
    object it had; otherwise the id now refers to the given object.  No
    other id is touched, nor the level, experience, points or
    achievements, and any later call with an object of the same id
    changes nothing. *)
Theorem start_challenge_spec (st : Store) (p : Player) (l : loc) :
  let cid := c_id (st l) in
  let p' := Player.start_challenge st p l in
  (forall l0, _challenges p !! cid = Some l0 -> p' = p) /\
  (_challenges p !! cid = None -> _challenges p' !! cid = Some l) /\
  (forall cid', cid' <> cid ->
     _challenges p' !! cid' = _challenges p !! cid') /\
  (forall l2, c_id (st l2) = cid -> Player.start_challenge st p' l2 = p') /\
  level p' = level p /\ experience p' = experience p /\
  total_points p' = total_points p /\
  _achievements p' = _achievements p /\
  _skill_levels p' = _skill_levels p.
Proof.
  intros cid p'. subst cid p'.
  split; [intros l0; apply start_challenge_tracked|].
  split.
  { intros H. rewrite start_challenge_lookup, H, String.eqb_refl.
    reflexivity. }
  split.
  { intros cid' Hne. rewrite start_challenge_lookup.
    destruct (_challenges p !! cid'); [reflexivity|].
    destruct (String.eqb_spec cid' (c_id (st l))); [congruence|reflexivity]. }
  split.
  { intros l2 Hid.
    destruct (_challenges (Player.start_challenge st p l) !! c_id (st l))
      as [l3|] eqn:E.
    - apply (start_challenge_tracked st _ l2 l3). now rewrite Hid.
    - rewrite start_challenge_lookup, String.eqb_refl in E.
      destruct (_challenges p !! c_id (st l)); discriminate. }
  unfold Player.start_challenge.
  destruct (_challenges p !! c_id (st l)); simpl; tauto.
Qed.

Lemma start_challenge_spec_witness :
  let c := mkChallenge "c1" "Tokenize" "" 1 [NLP] 40 false None in
  let st := store_set (store_set empty_store 0%nat c) 1%nat c in
  let p := Player.start_challenge st (new_player "p1" "alice" 0) 0%nat in
  _challenges p !! "c1" = Some 0%nat /\
  Player.start_challenge st p 1%nat = p.
Proof.
  intros c st p.
  destruct (start_challenge_spec st (new_player "p1" "alice" 0) 0%nat)
    as (_ & Hnew & _ & Hagain & _).
  split.
  - apply Hnew. reflexivity.
  - apply (Hagain 1%nat). reflexivity.
Defined.

(** ** Active and completed challenges *)

Lemma count_values_perm {K : Type} (f : Challenge -> bool)
    (g : K -> Challenge) (L L' : list K) :
  Permutation L L' ->
  length (List.filter f (map g L)) = length (List.filter f (map g L')).
Proof.
  induction 1 as [|x L L' _ IH|x y L|L1 L2 L3 _ IH1 _ IH2]; simpl.
  - reflexivity.
  - destruct (f (g x)); simpl; now rewrite IH.
  - destruct (f (g x)), (f (g y)); reflexivity.
  - congruence.
Qed.

Lemma count_values_ext {K : Type} (f : Challenge -> bool)
    (g g' : K -> Challenge) (L : list K) :
  (forall k, In k L -> g k = g' k) ->
  length (List.filter f (map g L)) = length (List.filter f (map g' L)).
Proof.
  induction L as [|k L IH]; simpl; intros H; [reflexivity|].
  rewrite <- (H k) by tauto.
  destruct (f (g k)); simpl; rewrite IH; auto.
Qed.

Lemma complete_challenge_challenges (st : Store) (p : Player)
    (cid : string) (now : Z) :
  _challenges (snd (fst (Player.complete_challenge st p cid now)))
    = _challenges p.
Proof.
  unfold Player.complete_challenge.
  destruct (_challenges p !! cid) as [l|]; [|reflexivity].
  destruct (c_completed (st l)); simpl; [reflexivity|].
  match goal with
  | |- context [fold_left Player.bump_skill ?sk ?q] =>
      destruct (bump_skills sk q) as (_ & _ & _ & _ & _ & Hc & _)
  end.
  rewrite Hc.
  match goal with
  | |- context [Player.add_experience ?q ?y ?n] =>
      destruct (add_experience_frame q y n) as (_ & _ & _ & _ & Hc' & _)
  end.
  rewrite Hc'. reflexivity.
Qed.

(** X3.  Every challenge a player tracks is either active or completed,
    never both: the two views split the dictionary, and so the two counts
    of the progress summary add up to the number of tracked challenges. *)
Theorem challenges_partition (st : Store) (p : Player) (now : Z) :
  (length (Player.active_challenges st p)
   + length (Player.completed_challenges st p))%nat
    = size (_challenges p) /\
  (forall c, In c (Player.active_challenges st p) ->
             ~ In c (Player.completed_challenges st p)) /\
  Player.s_active_challenges (Player.get_progress_summary st p now)
  + Player.s_completed_challenges (Player.get_progress_summary st p now)
    = Z.of_nat (size (_challenges p)).
Proof.
  assert (Hsum : (length (Player.active_challenges st p)
                  + length (Player.completed_challenges st p))%nat
                 = size (_challenges p)).
  { unfold Player.active_challenges, Player.completed_challenges.
    rewrite Nat.add_comm, List.filter_length.
    unfold Player.challenge_values.
    now rewrite length_map, length_map_to_list. }
  split; [exact Hsum|]. split.
  - unfold Player.active_challenges, Player.completed_challenges.
    intros c Ha Hc. apply filter_In in Ha, Hc.
    destruct Ha as (_ & Ha), Hc as (_ & Hc). rewrite Hc in Ha. discriminate.
  - simpl. rewrite <- Hsum. lia.
Qed.

Lemma complete_challenge_moves_one (st : Store) (p : Player) (cid : string)
    (now : Z) :
  tracks_by_id st (_challenges p) ->
  let r := Player.complete_challenge st p cid now in
  fst (fst r) = true ->
  length (Player.completed_challenges (snd r) (snd (fst r)))
    = S (length (Player.completed_challenges st p)) /\
  S (length (Player.active_challenges (snd r) (snd (fst r))))
    = length (Player.active_challenges st p).
Proof.
  intros Hid r Hok.
  pose proof (complete_challenge_challenges st p cid now) as Hch.
  fold r in Hch.
  unfold Player.completed_challenges, Player.active_challenges,
    Player.challenge_values.
  rewrite Hch. subst r. unfold Player.complete_challenge in *.
  destruct (_challenges p !! cid) as [l|] eqn:Hl; [|discriminate].
  destruct (c_completed (st l)) eqn:Hc; [discriminate|]. simpl.
  pose proof (map_to_list_delete (_challenges p) cid l Hl) as Hperm.
  assert (Hrest : forall kv,
             In kv (map_to_list (delete cid (_challenges p))) ->
             store_set st l
               (mkChallenge (c_id (st l)) (c_name (st l))
                  (c_description (st l)) (c_difficulty (st l))
                  (c_skills (st l)) (c_points (st l)) true (Some now))
               (snd kv) = st (snd kv)).
  { intros [k l'] Hin. simpl. apply list_elem_of_In in Hin.
    apply elem_of_map_to_list in Hin.
    destruct (decide (k = cid)) as [->|Hne].
    - rewrite lookup_delete_eq in Hin. discriminate.
    - rewrite lookup_delete_ne in Hin by congruence.
      unfold store_set. destruct (Nat.eqb_spec l' l) as [->|_];
        [|reflexivity].
      pose proof (Hid k l Hin). pose proof (Hid cid l Hl). congruence. }
  split.
  - rewrite <- !(count_values_perm _ _ _ _ Hperm). simpl.
    unfold store_set at 1. rewrite Nat.eqb_refl, Hc. simpl.
    f_equal. now apply count_values_ext.
  - rewrite <- !(count_values_perm _ _ _ _ Hperm). simpl.
    unfold store_set at 1. rewrite Nat.eqb_refl, Hc. simpl.
    f_equal. now apply count_values_ext.
Qed.


(** X4.  When the tracked ids name their objects, a successful
    [complete_challenge] moves exactly one challenge of the player from
    active to completed. *)
Theorem complete_challenge_counts (st : Store) (p : Player) (cid : string)
    (now : Z) :
  tracks_by_id st (_challenges p) ->
  let r := Player.complete_challenge st p cid now in
  fst (fst r) = true ->
  length (Player.completed_challenges (snd r) (snd (fst r)))
    = S (length (Player.completed_challenges st p)) /\
  S (length (Player.active_challenges (snd r) (snd (fst r))))
    = length (Player.active_challenges st p).
Proof. apply complete_challenge_moves_one. Qed.

Lemma complete_challenge_counts_witness :
  let c := mkChallenge "c1" "Tokenize" "" 1 [NLP; ML] 120 false None in
  let st := store_set empty_store 0%nat c in
  let p := Player.start_challenge st (new_player "p1" "alice" 0) 0%nat in
  let r := Player.complete_challenge st p "c1" 3 in
  length (Player.completed_challenges (snd r) (snd (fst r))) = 1%nat /\
  length (Player.active_challenges st p) = 1%nat.
Proof.
  intros c st p r.
  assert (Hid : tracks_by_id st (_challenges p)).
  { intros cid l H. subst p. rewrite start_challenge_lookup in H.
    change (_challenges (new_player "p1" "alice" 0))
      with (∅ : gmap string loc) in H.
    rewrite lookup_empty in H.
    destruct (String.eqb_spec cid (c_id (st 0%nat))) as [->|_];
      [|discriminate].
    injection H as <-. reflexivity. }
  destruct (complete_challenge_counts st p "c1" 3 Hid) as (Hc & Ha).
  { vm_compute. reflexivity. }
  fold r in Hc, Ha. split.
  - rewrite Hc. vm_compute. reflexivity.
  - rewrite <- Ha. vm_compute. reflexivity.
Defined.

(** * Further properties of [GameEngine] *)

(** ** What one operation does to one player *)

Lemma get_player_unknown (e : GameEngine) (k pid : string) :
  GameEngine.get_player e k = None -> String.eqb k pid = true ->
  GameEngine.get_player e pid = None.
Proof. intros H Heq. apply String.eqb_eq in Heq. now subst. Qed.

(** The player stored under [pid] after a step, in terms of the player
    stored there before. *)
Lemma exec_get_player (e : GameEngine) (now : Z) (op : Op) (pid : string) :
  GameEngine.get_player (exec e (now, op)) pid =
    match op with
    | RegisterPlayer k uname =>
        if String.eqb k pid then
          match GameEngine.get_player e pid with
          | Some p => Some p
          | None => Some (new_player k uname now)
          end
        else GameEngine.get_player e pid
    | AssignChallenge k cid =>
        if String.eqb k pid then
          match GameEngine.get_player e pid, _challenge_catalog e !! cid with
          | Some p, Some l => Some (Player.start_challenge (store e) p l)
          | o, _ => o
          end
        else GameEngine.get_player e pid
    | CompletePlayerChallenge k cid =>
        if String.eqb k pid then
          match GameEngine.get_player e pid with
          | Some p =>
              let r := Player.complete_challenge (store e) p cid now in
              if fst (fst r) then
                Some (fst (fst (GameEngine.check_rules
                                  (GameEngine.set_store e (snd r)) now
                                  (_achievement_rules e) (snd (fst r)))))
              else Some p
          | None => None
          end
        else GameEngine.get_player e pid
    | AwardExperience k amount =>
        if String.eqb k pid then
          match GameEngine.get_player e pid with
          | Some p =>
              Some (fst (fst (GameEngine.check_rules e now
                                (_achievement_rules e)
                                (snd (Player.add_experience p amount now)))))
          | None => None
          end
        else GameEngine.get_player e pid
    | _ => GameEngine.get_player e pid
    end.
Proof.
  unfold exec. simpl.
  destruct op as [k uname|r|c|k cid|k cid|k amount|event listener].
  - unfold GameEngine.register_player.
    destruct (players_get (_players e) k) as [q|] eqn:E; simpl.
    + destruct (String.eqb_spec k pid) as [<-|_]; [|reflexivity].
      unfold GameEngine.get_player. now rewrite E.
    + unfold GameEngine.get_player. simpl. rewrite players_get_set.
      destruct (String.eqb_spec k pid) as [<-|_]; [|reflexivity].
      now rewrite E.
  - reflexivity.
  - reflexivity.
  - unfold GameEngine.assign_challenge.
    destruct (GameEngine.get_player e k) as [p|] eqn:E.
    + destruct (_challenge_catalog e !! cid) as [l|]; simpl.
      * unfold GameEngine.get_player at 1. simpl. rewrite players_get_set.
        destruct (String.eqb_spec k pid) as [<-|_]; [|reflexivity].
        now rewrite E.
      * destruct (String.eqb_spec k pid) as [<-|_]; [|reflexivity].
        now rewrite E.
    + simpl. destruct (String.eqb k pid) eqn:Hk; [|reflexivity].
      now rewrite (get_player_unknown e k pid E Hk).
  - unfold GameEngine.complete_player_challenge.
    destruct (GameEngine.get_player e k) as [p|] eqn:E.
    + destruct (Player.complete_challenge (store e) p cid now)
        as [[success p1] st1] eqn:Hc.
      destruct success.
      * unfold GameEngine._check_achievements. simpl _achievement_rules.
        destruct (GameEngine.check_rules (GameEngine.set_store e st1) now
                    (_achievement_rules e) p1) as [[p2 evs] news] eqn:Hr.
        simpl. unfold GameEngine.get_player at 1. simpl.
        rewrite players_get_set.
        destruct (String.eqb_spec k pid) as [<-|_]; [|reflexivity].
        rewrite E, Hc. simpl. now rewrite Hr.
      * simpl. destruct (String.eqb_spec k pid) as [<-|_]; [|reflexivity].
        rewrite E, Hc. reflexivity.
    + simpl. destruct (String.eqb k pid) eqn:Hk; [|reflexivity].
      now rewrite (get_player_unknown e k pid E Hk).
  - unfold GameEngine.award_experience.
    destruct (GameEngine.get_player e k) as [p|] eqn:E.
    + destruct (Player.add_experience p amount now) as [b p1] eqn:Ha.
      unfold GameEngine._check_achievements.
      destruct (GameEngine.check_rules e now (_achievement_rules e) p1)
        as [[p2 evs] news] eqn:Hr.
      simpl. unfold GameEngine.get_player at 1. simpl.
      rewrite players_get_set.
      destruct (String.eqb_spec k pid) as [<-|_]; [|reflexivity].
      rewrite E, Ha. simpl. now rewrite Hr.
    + simpl. destruct (String.eqb k pid) eqn:Hk; [|reflexivity].
      now rewrite (get_player_unknown e k pid E Hk).
  - unfold GameEngine.on.
    now destruct (_event_listeners e !! event).
Qed.

(** ** Relations kept by every operation *)

Section PlayerRelation.

Variable R : Player -> Player -> Prop.
Hypothesis R_refl : forall p, R p p.
Hypothesis R_trans : forall p q r, R p q -> R q r -> R p r.
Hypothesis R_add :
  forall p x now, R p (snd (Player.add_experience p x now)).
Hypothesis R_earn : forall p a now, R p (Player.earn_achievement p a now).
Hypothesis R_start : forall st p l, R p (Player.start_challenge st p l).
Hypothesis R_complete :
  forall st p cid now,
    R p (snd (fst (Player.complete_challenge st p cid now))).

Lemma check_rules_related (e : GameEngine) (now : Z)
    (rules : list AchievementRule) (p : Player) :
  R p (fst (fst (GameEngine.check_rules e now rules p))).
Proof.
  revert p. induction rules as [|rule rest IH]; intros p; [apply R_refl|].
  destruct (check_rules_step e now rule rest p) as (Hheld & Hfalse & Htrue).
  destruct (Player.holds p (a_id (achievement rule))) eqn:Hh.
  { rewrite Hheld by reflexivity. apply IH. }
  destruct (check rule (store e) p) eqn:Hc.
  - rewrite Htrue by reflexivity. cbv zeta. simpl fst.
    eapply R_trans; [apply R_earn | apply IH].
  - rewrite Hfalse by reflexivity. apply IH.
Qed.

Lemma exec_related (e : GameEngine) (step : Z * Op) (pid : string)
    (p : Player) :
  GameEngine.get_player e pid = Some p ->
  exists p', GameEngine.get_player (exec e step) pid = Some p' /\ R p p'.
Proof.
  intros Hp. destruct step as [now op]. rewrite exec_get_player.
  destruct op as [k uname|r|c|k cid|k cid|k amount|event listener];
    try (exists p; split; [exact Hp | apply R_refl]).
  - destruct (String.eqb k pid); rewrite ?Hp;
      (exists p; split; [reflexivity | apply R_refl]).
  - destruct (String.eqb k pid); rewrite ?Hp;
      [|exists p; split; [reflexivity | apply R_refl]].
    destruct (_challenge_catalog e !! cid) as [l|].
    + eexists. split; [reflexivity | apply R_start].
    + exists p. split; [reflexivity | apply R_refl].
  - destruct (String.eqb k pid); rewrite ?Hp;
      [|exists p; split; [reflexivity | apply R_refl]].
    cbv zeta.
    destruct (fst (fst (Player.complete_challenge (store e) p cid now))).
    + eexists. split; [reflexivity|].
      eapply R_trans; [apply R_complete | apply check_rules_related].
    + exists p. split; [reflexivity | apply R_refl].
  - destruct (String.eqb k pid); rewrite ?Hp;
      [|exists p; split; [reflexivity | apply R_refl]].
    eexists. split; [reflexivity|].
    eapply R_trans; [apply R_add | apply check_rules_related].
Qed.

Lemma run_related (steps : list (Z * Op)) (e : GameEngine) (pid : string)
    (p : Player) :
  GameEngine.get_player e pid = Some p ->
  exists p', GameEngine.get_player (run e steps) pid = Some p' /\ R p p'.
Proof.
  revert e p. induction steps as [|step steps IH]; intros e p Hp.
  - exists p. split; [exact Hp | apply R_refl].
  - destruct (exec_related e step pid p Hp) as (p1 & Hp1 & HR1).
    destruct (IH (exec e step) p1 Hp1) as (p2 & Hp2 & HR2).
    exists p2. split; [exact Hp2 | eapply R_trans; eassumption].
Qed.

End PlayerRelation.

(** ** Players persist *)

Lemma evolves_refl (p : Player) : evolves p p.
Proof.
  unfold evolves. repeat split; try lia; auto.
  exists []. now rewrite app_nil_r.
Qed.

Lemma evolves_trans (p q r : Player) :
  evolves p q -> evolves q r -> evolves p r.
Proof.
  intros (H1 & H2 & H3 & H4 & H5 & (m & H6) & H7)
         (K1 & K2 & K3 & K4 & K5 & (n & K6) & K7).
  unfold evolves.
  split; [congruence|]. split; [congruence|]. split; [congruence|].
  split; [lia|].
  split; [intros s; specialize (H5 s); specialize (K5 s); lia|].
  split; [exists (m ++ n); rewrite K6, H6, <- app_assoc; reflexivity|].
  intros cid l H. apply K7, H7, H.
Qed.

Lemma evolves_add (p : Player) (x now : Z) :
  evolves p (snd (Player.add_experience p x now)).
Proof.
  destruct (add_experience_frame p x now)
    as (Hi & Hu & _ & Ha & Hc & Hs & Hcr & _).
  pose proof (add_experience_level_step p x now) as Hl.
  unfold evolves. rewrite Hi, Hu, Ha, Hc, Hs, Hcr, Hl.
  repeat split; try lia; auto.
  - destruct (fst (Player.add_experience p x now)); lia.
  - exists []. now rewrite app_nil_r.
Qed.

Lemma evolves_earn (p : Player) (a : Achievement) (now : Z) :
  evolves p (Player.earn_achievement p a now).
Proof.
  destruct (Player.holds p (a_id a)) eqn:Hh.
  { rewrite earn_achievement_held by exact Hh. apply evolves_refl. }
  rewrite earn_achievement_new by exact Hh.
  eapply evolves_trans; [|apply evolves_add].
  unfold evolves. simpl. repeat split; try lia; auto.
  now exists [a].
Qed.

Lemma evolves_start (st : Store) (p : Player) (l : loc) :
  evolves p (Player.start_challenge st p l).
Proof.
  assert (Hkeep : forall cid l0,
             _challenges p !! cid = Some l0 ->
             _challenges (Player.start_challenge st p l) !! cid = Some l0).
  { intros cid l0 H. now rewrite start_challenge_lookup, H. }
  revert Hkeep. unfold evolves, Player.start_challenge.
  destruct (_challenges p !! c_id (st l)); simpl; intros Hkeep.
  - apply evolves_refl.
  - split; [reflexivity|]. split; [reflexivity|]. split; [reflexivity|].
    split; [lia|]. split; [intros s; lia|].
    split; [exists []; now rewrite app_nil_r | exact Hkeep].
Qed.

Lemma evolves_bump (l : list Skill) (p : Player) :
  evolves p (fold_left Player.bump_skill l p).
Proof.
  destruct (bump_skills l p) as (Hs & Hl & _ & _ & Ha & Hc & Hi).
  assert (Hu : username (fold_left Player.bump_skill l p) = username p
               /\ created_at (fold_left Player.bump_skill l p)
                  = created_at p).
  { clear. revert p. induction l as [|x l IH]; intros p; simpl;
      [tauto|]. destruct (IH (Player.bump_skill p x)) as (-> & ->).
    simpl. tauto. }
  destruct Hu as (Hu & Hcr).
  unfold evolves. rewrite Hi, Hu, Hcr, Hl, Ha, Hc.
  repeat split; try lia; auto.
  - intros s. rewrite Hs. lia.
  - exists []. now rewrite app_nil_r.
Qed.

Lemma evolves_complete (st : Store) (p : Player) (cid : string) (now : Z) :
  evolves p (snd (fst (Player.complete_challenge st p cid now))).
Proof.
  unfold Player.complete_challenge.
  destruct (_challenges p !! cid) as [l|]; [|apply evolves_refl].
  destruct (c_completed (st l)); simpl; [apply evolves_refl|].
  eapply evolves_trans; [|apply evolves_bump].
  eapply evolves_trans; [|apply evolves_add].
  unfold evolves. simpl. repeat split; try lia; auto.
  exists []. now rewrite app_nil_r.
Qed.

(** X5.  A registered player is never removed or replaced: after any
    further operations the same id is still registered, with the same
    username and creation time, a level and skill levels at least as
    high, the earlier achievements still first in the list and in the same
    order, and every challenge it tracked still tracked with the same
    object. *)
Theorem players_persist (e : GameEngine) (steps : list (Z * Op))
    (pid : string) (p : Player) :
  GameEngine.get_player e pid = Some p ->
  exists p',
    GameEngine.get_player (run e steps) pid = Some p' /\
    player_id p' = player_id p /\ username p' = username p /\
    created_at p' = created_at p /\
    level p <= level p' /\
    (forall s, Player.get_skill_level p s <= Player.get_skill_level p' s) /\
    (exists more, _achievements p' = _achievements p ++ more) /\
    (forall cid l, _challenges p !! cid = Some l ->
                   _challenges p' !! cid = Some l).
Proof.
  intros Hp.
  destruct (run_related evolves evolves_refl evolves_trans evolves_add
              evolves_earn evolves_start evolves_complete steps e pid p Hp)
    as (p' & Hp' & Hev).
  exists p'. split; [exact Hp' | exact Hev].
Qed.

Lemma players_persist_witness :
  exists p',
    GameEngine.get_player
      (run (run new_engine level5_setup) level5_climb) "p1" = Some p' /\
    username p' = "alice" /\ 1 <= level p'.
Proof.
  destruct (players_persist (run new_engine level5_setup) level5_climb
              "p1" (new_player "p1" "alice" 0))
    as (p' & Hp' & _ & Hu & _ & Hl & _); [reflexivity|].
  exists p'. split; [exact Hp'|]. split; [exact Hu | exact Hl].
Defined.

(** ** The registry only grows *)

Lemma exec_player_ids (e : GameEngine) (step : Z * Op) :
  NoDup (player_ids e) ->
  NoDup (player_ids (exec e step)) /\
  exists more, player_ids (exec e step) = player_ids e ++ more.
Proof.
  intros Hnd.
  assert (Hsame : NoDup (player_ids e) /\
                  exists more, player_ids e = player_ids e ++ more).
  { split; [exact Hnd | exists []; now rewrite app_nil_r]. }
  assert (Hset : forall pid p q,
             GameEngine.get_player e pid = Some q ->
             NoDup (map fst (players_set (_players e) pid p)) /\
             exists more,
               map fst (players_set (_players e) pid p)
                 = player_ids e ++ more).
  { intros pid p q Hq. unfold GameEngine.get_player in Hq.
    rewrite (players_set_keys _ pid p q Hq). exact Hsame. }
  destruct step as [now op]. unfold exec, player_ids in *. simpl.
  destruct op as [k uname|r|c|k cid|k cid|k amount|event listener];
    try exact Hsame.
  - unfold GameEngine.register_player.
    destruct (players_get (_players e) k) as [q|] eqn:E; simpl;
      [exact Hsame|].
    rewrite players_set_absent by exact E. rewrite map_app. simpl.
    split; [|eexists; reflexivity].
    apply NoDup_app. split; [exact Hnd|].
    split; [|apply NoDup_singleton].
    intros x Hx Hk. apply list_elem_of_singleton in Hk. subst x.
    apply players_get_None in E. apply E. now apply list_elem_of_In.
  - unfold GameEngine.assign_challenge.
    destruct (GameEngine.get_player e k) as [p|] eqn:E; [|exact Hsame].
    destruct (_challenge_catalog e !! cid); [|exact Hsame].
    simpl. eapply Hset, E.
  - unfold GameEngine.complete_player_challenge.
    destruct (GameEngine.get_player e k) as [p|] eqn:E; [|exact Hsame].
    destruct (Player.complete_challenge (store e) p cid now)
      as [[success p1] st1].
    destruct success; [|exact Hsame].
    destruct (GameEngine._check_achievements (GameEngine.set_store e st1)
                now p1) as [[p2 evs] news].
    simpl. eapply Hset, E.
  - unfold GameEngine.award_experience.
    destruct (GameEngine.get_player e k) as [p|] eqn:E; [|exact Hsame].
    destruct (Player.add_experience p amount now) as [b p1].
    destruct (GameEngine._check_achievements e now p1) as [[p2 evs] news].
    simpl. eapply Hset, E.
  - unfold GameEngine.on. now destruct (_event_listeners e !! event).
Qed.

Lemma run_player_ids (steps : list (Z * Op)) (e : GameEngine) :
  NoDup (player_ids e) ->
  NoDup (player_ids (run e steps)) /\
  exists more, player_ids (run e steps) = player_ids e ++ more.
Proof.
  revert e. induction steps as [|step steps IH]; intros e Hnd.
  - split; [exact Hnd | exists []; now rewrite app_nil_r].
  - destruct (exec_player_ids e step Hnd) as (Hnd1 & more1 & H1).
    destruct (IH (exec e step) Hnd1) as (Hnd2 & more2 & H2).
    split; [exact Hnd2|]. exists (more1 ++ more2). simpl.
    now rewrite H2, H1, <- app_assoc.
Qed.

(** X6.  The registry is an append-only list of distinct ids: along a
    run from a new engine no id is ever listed twice, later operations
    only add ids after the ones already there (so registration order,
    which breaks the ties of the leaderboard, never changes), and each id
    listed is that of the player stored under it. *)
Theorem registry_grows (steps1 steps2 : list (Z * Op)) :
  let e1 := run new_engine steps1 in
  let e2 := run e1 steps2 in
  NoDup (player_ids e2) /\
  (exists more, player_ids e2 = player_ids e1 ++ more) /\
  (forall pid,
     In pid (player_ids e2) <->
     exists p, GameEngine.get_player e2 pid = Some p /\ player_id p = pid).
Proof.
  intros e1 e2.
  assert (Hnd0 : NoDup (player_ids new_engine)) by constructor.
  destruct (run_player_ids steps1 new_engine Hnd0) as (Hnd1 & _).
  destruct (run_player_ids steps2 e1 Hnd1) as (Hnd2 & Hmore).
  split; [exact Hnd2|]. split; [exact Hmore|].
  assert (Hk : keyed e2).
  { subst e2 e1. rewrite <- run_app.
    apply run_earned_once;
      [intros q p; discriminate | intros q a; reflexivity]. }
  intros pid. unfold player_ids, GameEngine.get_player.
  rewrite <- players_get_Some. split.
  - intros (p & Hp). exists p. split; [exact Hp | now apply Hk].
  - intros (p & Hp & _). now exists p.
Qed.

(** ** Challenge objects *)

Lemma ages_refl (c : Challenge) : ages c c.
Proof. unfold ages. tauto. Qed.

Lemma ages_trans (c1 c2 c3 : Challenge) :
  ages c1 c2 -> ages c2 c3 -> ages c1 c3.
Proof.
  intros (H1 & H2 & H3 & H4 & H5 & H6 & H7 & H8)
         (K1 & K2 & K3 & K4 & K5 & K6 & K7 & K8).
  unfold ages.
  repeat (split; [congruence|]). split.
  - intros Hc. pose proof (H7 Hc) as E. subst c2. exact (K7 Hc).
  - intros Hc. pose proof (K8 Hc) as E. subst c3. exact (H8 Hc).
Qed.

Lemma complete_challenge_store (st : Store) (p : Player) (cid : string)
    (now : Z) (l : loc) :
  ages (st l) (snd (Player.complete_challenge st p cid now) l).
Proof.
  unfold Player.complete_challenge.
  destruct (_challenges p !! cid) as [l0|]; [|apply ages_refl].
  destruct (c_completed (st l0)) eqn:Hc; simpl; [apply ages_refl|].
  unfold store_set. destruct (Nat.eqb_spec l l0) as [->|_];
    [|apply ages_refl].
  unfold ages. simpl. repeat (split; [reflexivity|]).
  split; [congruence | discriminate].
Qed.

(** The fields of the engine other than the registry and the trace,
    after a step. *)
Lemma exec_fields (e : GameEngine) (now : Z) (op : Op) :
  store (exec e (now, op)) =
    match op with
    | AddChallenge c => store_set (store e) (next_loc e) c
    | CompletePlayerChallenge k cid =>
        match GameEngine.get_player e k with
        | Some p => snd (Player.complete_challenge (store e) p cid now)
        | None => store e
        end
    | _ => store e
    end /\
  next_loc (exec e (now, op)) =
    match op with
    | AddChallenge _ => S (next_loc e)
    | _ => next_loc e
    end /\
  _challenge_catalog (exec e (now, op)) =
    match op with
    | AddChallenge c => <[c_id c := next_loc e]> (_challenge_catalog e)
    | _ => _challenge_catalog e
    end /\
  _achievement_rules (exec e (now, op)) =
    match op with
    | AddAchievementRule r => _achievement_rules e ++ [r]
    | _ => _achievement_rules e
    end.
Proof.
  unfold exec. simpl.
  destruct op as [k uname|r|c|k cid|k cid|k amount|event listener]; simpl.
  - unfold GameEngine.register_player.
    destruct (players_get (_players e) k); simpl; tauto.
  - tauto.
  - tauto.
  - unfold GameEngine.assign_challenge.
    destruct (GameEngine.get_player e k); [|simpl; tauto].
    destruct (_challenge_catalog e !! cid); simpl; tauto.
  - unfold GameEngine.complete_player_challenge.
    destruct (GameEngine.get_player e k) as [p|]; [|simpl; tauto].
    unfold Player.complete_challenge.
    destruct (_challenges p !! cid) as [l|]; [|simpl; tauto].
    destruct (c_completed (store e l)); simpl; [tauto|].
    match goal with
    | |- context [GameEngine._check_achievements ?e1 ?n ?q] =>
        destruct (GameEngine._check_achievements e1 n q) as [[p2 evs] news]
    end.
    simpl. tauto.
  - unfold GameEngine.award_experience.
    destruct (GameEngine.get_player e k) as [p|]; [|simpl; tauto].
    destruct (Player.add_experience p amount now) as [b p1].
    destruct (GameEngine._check_achievements e now p1) as [[p2 evs] news].
    simpl. tauto.
  - unfold GameEngine.on.
    destruct (_event_listeners e !! event); simpl; tauto.
Qed.

Lemma exec_ages (e : GameEngine) (step : Z * Op) (l : loc) :
  (l < next_loc e)%nat ->
  (next_loc e <= next_loc (exec e step))%nat /\
  ages (store e l) (store (exec e step) l).
Proof.
  intros Hl. destruct step as [now op].
  destruct (exec_fields e now op) as (Hst & Hn & _).
  rewrite Hst, Hn.
  destruct op as [k uname|r|c|k cid|k cid|k amount|event listener];
    try (split; [lia | apply ages_refl]).
  - split; [lia|]. unfold store_set.
    destruct (Nat.eqb_spec l (next_loc e)); [lia | apply ages_refl].
  - split; [lia|].
    destruct (GameEngine.get_player e k); [|apply ages_refl].
    apply complete_challenge_store.
Qed.

Lemma run_ages (steps : list (Z * Op)) (e : GameEngine) (l : loc) :
  (l < next_loc e)%nat ->
  (next_loc e <= next_loc (run e steps))%nat /\
  ages (store e l) (store (run e steps) l).
Proof.
  revert e. induction steps as [|step steps IH]; intros e Hl.
  - split; [apply Nat.le_refl | apply ages_refl].
  - destruct (exec_ages e step l Hl) as (Hn1 & Ha1).
    destruct (IH (exec e step)) as (Hn2 & Ha2); [lia|].
    change (run e (step :: steps)) with (run (exec e step) steps).
    split; [lia|]. eapply ages_trans; eassumption.
Qed.

(** X7.  A challenge object already in the store is never edited or
    un-completed: whatever operations follow, its id, name, description,
    difficulty, skills and points stay as they are, only the completion
    flag and its time stamp can change, and once the object is completed
    it stays exactly as it is. *)
Theorem challenges_only_complete (e : GameEngine) (steps : list (Z * Op))
    (l : loc) :
  (l < next_loc e)%nat ->
  let c := store e l in
  let c' := store (run e steps) l in
  c_id c' = c_id c /\ c_name c' = c_name c /\
  c_description c' = c_description c /\ c_difficulty c' = c_difficulty c /\
  c_skills c' = c_skills c /\ c_points c' = c_points c /\
  (c_completed c = true -> c' = c) /\
  (c_completed c' = false -> c' = c).
Proof. intros Hl c c'. apply (run_ages steps e l Hl). Qed.

Lemma challenges_only_complete_witness :
  let e := run new_engine shared_setup in
  let e' := run e [(5, CompletePlayerChallenge "p1" "c1");
                   (6, CompletePlayerChallenge "p2" "c1");
                   (7, AwardExperience "p2" 500)] in
  c_points (store e' 0%nat) = 50 /\ c_id (store e' 0%nat) = "c1".
Proof.
  intros e e'.
  destruct (challenges_only_complete e
              [(5, CompletePlayerChallenge "p1" "c1");
               (6, CompletePlayerChallenge "p2" "c1");
               (7, AwardExperience "p2" 500)] 0%nat)
    as (Hid & _ & _ & _ & _ & Hpts & _).
  { vm_compute. lia. }
  split; [exact Hpts | exact Hid].
Defined.

(** ** References stay well formed *)

Lemma check_rules_challenges (e : GameEngine) (now : Z)
    (rules : list AchievementRule) (p : Player) :
  _challenges (fst (fst (GameEngine.check_rules e now rules p)))
    = _challenges p.
Proof.
  apply (check_rules_related (fun p p' => _challenges p' = _challenges p)).
  - reflexivity.
  - intros p1 p2 p3 H1 H2. congruence.
  - intros q a n. apply earn_achievement_frame.
Qed.

(** Where a tracked reference comes from: it was tracked before the
    step, or the step assigned it from the catalog. *)
Lemma exec_tracked (e : GameEngine) (now : Z) (op : Op) (pid cid : string)
    (p' : Player) (l : loc) :
  GameEngine.get_player (exec e (now, op)) pid = Some p' ->
  _challenges p' !! cid = Some l ->
  (exists p, GameEngine.get_player e pid = Some p /\
             _challenges p !! cid = Some l) \/
  (exists k, _challenge_catalog e !! k = Some l /\ c_id (store e l) = cid).
Proof.
  rewrite exec_get_player. intros Hp' Hl.
  destruct op as [k uname|r|c|k cid0|k cid0|k amount|event listener];
    try (left; exists p'; split; assumption).
  - destruct (String.eqb k pid); [|left; exists p'; split; assumption].
    destruct (GameEngine.get_player e pid) as [p|].
    + injection Hp' as <-. left. now exists p.
    + injection Hp' as <-. simpl in Hl. rewrite lookup_empty in Hl.
      discriminate.
  - destruct (String.eqb k pid); [|left; exists p'; split; assumption].
    destruct (GameEngine.get_player e pid) as [p|]; [|discriminate].
    destruct (_challenge_catalog e !! cid0) as [l0|] eqn:Hc.
    + injection Hp' as <-. rewrite start_challenge_lookup in Hl.
      destruct (_challenges p !! cid) as [l1|] eqn:E.
      * left. exists p. split; [reflexivity | congruence].
      * destruct (String.eqb_spec cid (c_id (store e l0))) as [->|_];
          [|discriminate].
        injection Hl as <-. right. now exists cid0.
    + injection Hp' as <-. left. now exists p.
  - destruct (String.eqb k pid); [|left; exists p'; split; assumption].
    destruct (GameEngine.get_player e pid) as [p|]; [|discriminate].
    cbv zeta in Hp'. left. exists p. split; [reflexivity|].
    destruct (fst (fst (Player.complete_challenge (store e) p cid0 now)));
      injection Hp' as <-; [|exact Hl].
    now rewrite check_rules_challenges, complete_challenge_challenges in Hl.
  - destruct (String.eqb k pid); [|left; exists p'; split; assumption].
    destruct (GameEngine.get_player e pid) as [p|]; [|discriminate].
    injection Hp' as <-. left. exists p. split; [reflexivity|].
    rewrite check_rules_challenges in Hl.
    destruct (add_experience_frame p amount now)
      as (_ & _ & _ & _ & Hc & _).
    now rewrite Hc in Hl.
Qed.

Lemma exec_well_formed (e : GameEngine) (step : Z * Op) :
  well_formed e -> well_formed (exec e step).
Proof.
  intros (Hcat & Hpl). destruct step as [now op].
  assert (Hold : forall l cid,
             (l < next_loc e)%nat -> c_id (store e l) = cid ->
             (l < next_loc (exec e (now, op)))%nat /\
             c_id (store (exec e (now, op)) l) = cid).
  { intros l cid Hl Hid.
    destruct (exec_ages e (now, op) l Hl) as (Hn & Hid' & _).
    split; [lia | congruence]. }
  split.
  - intros cid l Hc.
    destruct (exec_fields e now op) as (Hst & Hn & Hcat' & _).
    rewrite Hcat' in Hc.
    destruct op as [k uname|r|c|k cid0|k cid0|k amount|event listener];
      try (destruct (Hcat cid l Hc); now apply Hold).
    destruct (decide (c_id c = cid)) as [<-|Hne].
    + rewrite lookup_insert_eq in Hc. injection Hc as <-.
      rewrite Hst, Hn. unfold store_set. rewrite Nat.eqb_refl.
      split; [lia | reflexivity].
    + rewrite lookup_insert_ne in Hc by exact Hne.
      destruct (Hcat cid l Hc). now apply Hold.
  - intros pid p' cid l Hp' Hl.
    destruct (exec_tracked e now op pid cid p' l Hp' Hl)
      as [(p & Hp & Hlp) | (k & Hk & Hid)].
    + destruct (Hpl pid p cid l Hp Hlp). now apply Hold.
    + destruct (Hcat k l Hk) as (Hlt & _). now apply Hold.
Qed.

Lemma run_well_formed (steps : list (Z * Op)) (e : GameEngine) :
  well_formed e -> well_formed (run e steps).
Proof.
  revert e. induction steps as [|step steps IH]; intros e He;
    [exact He|].
  apply (IH (exec e step)), exec_well_formed, He.
Qed.

(** X8.  In every state reached from a new engine, each reference held
    by the catalog or by a player is to an object that exists and carries
    the id it is filed under.  So the ids a player tracks name their
    objects, and two different ids of one player never refer to the same
    object. *)
Theorem references_well_formed (steps : list (Z * Op)) :
  let e := run new_engine steps in
  (forall cid l, _challenge_catalog e !! cid = Some l ->
     (l < next_loc e)%nat /\ c_id (store e l) = cid) /\
  (forall pid p,
     GameEngine.get_player e pid = Some p ->
     tracks_by_id (store e) (_challenges p) /\
     (forall cid l, _challenges p !! cid = Some l -> (l < next_loc e)%nat) /\
     (forall cid1 cid2 l,
        _challenges p !! cid1 = Some l -> _challenges p !! cid2 = Some l ->
        cid1 = cid2)).
Proof.
  intros e.
  assert (Hwf : well_formed e).
  { apply run_well_formed. split.
    - intros cid l H. simpl in H. rewrite lookup_empty in H. discriminate.
    - intros pid p cid l H. discriminate. }
  destruct Hwf as (Hcat & Hpl).
  split; [exact Hcat|].
  intros pid p Hp. split; [|split].
  - intros cid l Hl. apply (Hpl pid p cid l Hp Hl).
  - intros cid l Hl. apply (Hpl pid p cid l Hp Hl).
  - intros cid1 cid2 l H1 H2.
    destruct (Hpl pid p cid1 l Hp H1) as (_ & <-).
    destruct (Hpl pid p cid2 l Hp H2) as (_ & <-). reflexivity.
Qed.

Lemma references_well_formed_witness :
  let e := run new_engine shared_setup in
  exists p, GameEngine.get_player e "p2" = Some p /\
            tracks_by_id (store e) (_challenges p).
Proof.
  intros e. subst e.
  destruct (references_well_formed shared_setup) as (_ & Hpl).
  destruct (GameEngine.get_player (run new_engine shared_setup) "p2")
    as [p|] eqn:E; [|vm_compute in E; discriminate].
  exists p. split; [reflexivity|]. apply (Hpl "p2" p E).
Defined.

(** ** [assign_challenge] *)

Lemma players_set_same (ps : list (string * Player)) (pid : string)
    (p : Player) :
  players_get ps pid = Some p -> players_set ps pid p = ps.
Proof.
  induction ps as [|[k q] ps IH]; simpl; intros H; [discriminate|].
  destruct (String.eqb_spec k pid) as [->|_].
  - now injection H as ->.
  - now rewrite IH.
Qed.

(** X9.  [assign_challenge] returns [True] exactly when the player is
    registered and the id is in the catalog.  When it returns [False] the
    engine is unchanged.  In every case only the one player can change:
    the store, the catalog, the rules, the listeners, the trace and the
    other players are as before.  Assigning the same id again returns the
    same result and changes nothing more. *)
Theorem assign_challenge_spec (e : GameEngine) (pid cid : string) :
  let r := GameEngine.assign_challenge e pid cid in
  (fst r = true <->
     (exists p, GameEngine.get_player e pid = Some p) /\
     (exists l, _challenge_catalog e !! cid = Some l)) /\
  (fst r = false -> snd r = e) /\
  (store (snd r) = store e /\
   _challenge_catalog (snd r) = _challenge_catalog e /\
   _achievement_rules (snd r) = _achievement_rules e /\
   _event_listeners (snd r) = _event_listeners e /\
   trace (snd r) = trace e /\ next_loc (snd r) = next_loc e) /\
  (forall pid', pid' <> pid ->
     GameEngine.get_player (snd r) pid' = GameEngine.get_player e pid') /\
  GameEngine.assign_challenge (snd r) pid cid = r.
Proof.
  intros r. subst r. unfold GameEngine.assign_challenge.
  destruct (GameEngine.get_player e pid) as [p|] eqn:Hp.
  2:{ simpl. rewrite Hp.
      split; [split; [discriminate | intros ((p & H) & _); discriminate]|].
      tauto. }
  destruct (_challenge_catalog e !! cid) as [l|] eqn:Hl.
  2:{ simpl. rewrite Hp, Hl.
      split; [split; [discriminate | intros (_ & (l & H)); discriminate]|].
      tauto. }
  simpl.
  split; [split; [intros _; split; eauto | reflexivity]|].
  split; [discriminate|]. split; [tauto|].
  split.
  { intros pid' Hne. unfold GameEngine.get_player. simpl.
    rewrite players_get_set.
    destruct (String.eqb_spec pid pid'); [congruence | reflexivity]. }
  unfold GameEngine.get_player. simpl.
  rewrite players_get_set, String.eqb_refl, Hl.
  set (p' := Player.start_challenge (store e) p l).
  assert (Hagain : Player.start_challenge (store e) p' l = p').
  { destruct (_challenges p' !! c_id (store e l)) as [l3|] eqn:E.
    - now apply (start_challenge_tracked (store e) p' l l3).
    - subst p'. rewrite start_challenge_lookup, String.eqb_refl in E.
      destruct (_challenges p !! c_id (store e l)); discriminate. }
  rewrite Hagain. unfold GameEngine.set_players. simpl.
  rewrite (players_set_same _ pid p'); [reflexivity|].
  now rewrite players_get_set, String.eqb_refl.
Qed.

Lemma assign_challenge_spec_witness :
  let e := run new_engine shared_setup in
  GameEngine.assign_challenge e "p1" "c1" = (true, e) /\
  GameEngine.assign_challenge e "nobody" "c1" = (false, e) /\
  GameEngine.assign_challenge e "p1" "missing" = (false, e).
Proof.
  intros e.
  assert (Hno : forall pid cid,
            fst (GameEngine.assign_challenge e pid cid) = false ->
            GameEngine.assign_challenge e pid cid = (false, e)).
  { intros pid cid H.
    destruct (assign_challenge_spec e pid cid) as (_ & Hsame & _).
    specialize (Hsame H).
    destruct (GameEngine.assign_challenge e pid cid) as [b e'].
    simpl in *. congruence. }
  split; [|split; apply Hno; reflexivity].
  destruct (assign_challenge_spec
              (run new_engine [(0, RegisterPlayer "p1" "alice");
                 (1, RegisterPlayer "p2" "bob");
                 (2, AddChallenge
                       (mkChallenge "c1" "Parse" "" 2 [NLP] 50 false None));
                 (4, AssignChallenge "p2" "c1")]) "p1" "c1")
    as (_ & _ & _ & _ & Hagain).
  exact Hagain.
Defined.

(** ** [complete_player_challenge] *)





(** ** Listeners *)

Lemma exec_listeners (e : GameEngine) (now : Z) (op : Op) :
  _event_listeners (exec e (now, op)) =
    match op with
    | On event listener =>
        match _event_listeners e !! event with
        | Some ls => <[event := ls ++ [listener]]> (_event_listeners e)
        | None => _event_listeners e
        end
    | _ => _event_listeners e
    end.
Proof.
  unfold exec. simpl.
  destruct op as [k uname|r|c|k cid|k cid|k amount|event listener]; simpl.
  - unfold GameEngine.register_player.
    now destruct (players_get (_players e) k).
  - reflexivity.
  - reflexivity.
  - unfold GameEngine.assign_challenge.
    destruct (GameEngine.get_player e k); [|reflexivity].
    now destruct (_challenge_catalog e !! cid).
  - unfold GameEngine.complete_player_challenge.
    destruct (GameEngine.get_player e k) as [p|]; [|reflexivity].
    destruct (Player.complete_challenge (store e) p cid now)
      as [[success p1] st1].
    destruct success; [|reflexivity].
    now destruct (GameEngine._check_achievements (GameEngine.set_store e st1)
                    now p1) as [[p2 evs] news].
  - unfold GameEngine.award_experience.
    destruct (GameEngine.get_player e k) as [p|]; [|reflexivity].
    destruct (Player.add_experience p amount now) as [b p1].
    now destruct (GameEngine._check_achievements e now p1)
      as [[p2 evs] news].
  - unfold GameEngine.on. now destruct (_event_listeners e !! event).
Qed.

Lemma listeners_of_snoc (event : string) (steps : list (Z * Op))
    (step : Z * Op) :
  listeners_of event (steps ++ [step])
    = listeners_of event steps
      ++ match snd step with
         | On ev l => if String.eqb ev event then [l] else []
         | _ => []
         end.
Proof.
  unfold listeners_of. rewrite flat_map_app. simpl.
  now rewrite app_nil_r.
Qed.

Lemma run_snoc (e : GameEngine) (steps : list (Z * Op)) (step : Z * Op) :
  run e (steps ++ [step]) = exec (run e steps) step.
Proof. now rewrite run_app. Qed.

Lemma run_listener_table (steps : list (Z * Op)) (event : string) :
  _event_listeners (run new_engine steps) !! event
    = if supported event then Some (listeners_of event steps) else None.
Proof.
  induction steps as [|[now op] steps IH] using rev_ind.
  - unfold supported, supported_events. simpl.
    destruct (String.eqb_spec event "level_up") as [->|H1];
      [reflexivity|].
    rewrite lookup_insert_ne by congruence.
    destruct (String.eqb_spec event "achievement_earned") as [->|H2];
      [reflexivity|].
    rewrite lookup_insert_ne by congruence.
    destruct (String.eqb_spec event "challenge_completed") as [->|H3];
      [reflexivity|].
    rewrite lookup_insert_ne by congruence. apply lookup_empty.
  - rewrite run_snoc, exec_listeners, listeners_of_snoc. simpl.
    destruct op as [k uname|r|c|k cid|k cid|k amount|ev listener];
      try (rewrite IH, app_nil_r; reflexivity).
    destruct (_event_listeners (run new_engine steps) !! ev) as [ls|] eqn:E.
    + destruct (String.eqb_spec ev event) as [->|Hne].
      * rewrite lookup_insert_eq. rewrite IH in E.
        destruct (supported event); [|discriminate].
        now injection E as <-.
      * rewrite lookup_insert_ne by exact Hne.
        rewrite IH, app_nil_r. reflexivity.
    + rewrite IH. destruct (String.eqb_spec ev event) as [->|Hne].
      * rewrite IH in E. destruct (supported event); [discriminate|].
        reflexivity.
      * now rewrite app_nil_r.
Qed.

(** X11.  The listener table of an engine keeps, for each of the three
    supported events, the listeners named by the calls of [on] for that
    event: one entry per call, duplicates included, in the order of the
    calls.  A call of [on] with any other name adds nothing, and no other
    operation touches the table. *)
Theorem listener_table (steps : list (Z * Op)) (event : string) :
  _event_listeners (run new_engine steps) !! event
    = (if supported event then Some (listeners_of event steps) else None) /\
  (forall listener,
     supported event = false ->
     GameEngine.on (run new_engine steps) event listener
       = run new_engine steps) /\
  (forall listener,
     supported event = true ->
     _event_listeners
       (GameEngine.on (run new_engine steps) event listener) !! event
       = Some (listeners_of event steps ++ [listener])).
Proof.
  pose proof (run_listener_table steps event) as Ht.
  split; [exact Ht|]. split.
  - intros listener Hs. unfold GameEngine.on. rewrite Ht, Hs. reflexivity.
  - intros listener Hs. unfold GameEngine.on. rewrite Ht, Hs. simpl.
    apply lookup_insert_eq.
Qed.

Lemma listener_table_witness :
  _event_listeners
    (GameEngine.on (run new_engine level5_setup) "achievement_earned" "log")
    !! "achievement_earned" = Some ["notify"; "log"] /\
  GameEngine.on (run new_engine level5_setup) "player_deleted" "log"
    = run new_engine level5_setup.
Proof.
  destruct (listener_table level5_setup "achievement_earned")
    as (_ & _ & Hadd).
  destruct (listener_table level5_setup "player_deleted") as (_ & Hdrop & _).
  split; [apply (Hadd "log") | apply (Hdrop "log")]; reflexivity.
Defined.



(** ** Accounting for experience *)

Lemma lifetime_add (p : Player) (x now : Z) :
  lifetime_xp (snd (Player.add_experience p x now)) = lifetime_xp p + x /\
  total_points (snd (Player.add_experience p x now)) = total_points p.
Proof.
  unfold lifetime_xp, Player.add_experience; simpl.
  destruct (100 * level p <=? experience p + x); simpl; split; lia.
Qed.

Lemma same_balance_earn (p : Player) (a : Achievement) (now : Z) :
  same_balance p (Player.earn_achievement p a now).
Proof.
  unfold same_balance, Player.earn_achievement.
  destruct (negb (Player.holds p (a_id a))); [|reflexivity].
  match goal with
  | |- context [Player.add_experience ?q ?y ?n] =>
      destruct (lifetime_add q y n) as (Hl & Ht)
  end.
  rewrite Hl, Ht. unfold lifetime_xp. simpl. lia.
Qed.

Lemma same_balance_complete (st : Store) (p : Player) (cid : string)
    (now : Z) :
  same_balance p (snd (fst (Player.complete_challenge st p cid now))).
Proof.
  unfold same_balance, Player.complete_challenge.
  destruct (_challenges p !! cid) as [l|]; [|reflexivity].
  destruct (c_completed (st l)); simpl; [reflexivity|].
  match goal with
  | |- context [fold_left Player.bump_skill ?sk ?q] =>
      destruct (bump_skills sk q) as (_ & Hl & He & Ht & _)
  end.
  unfold lifetime_xp at 1. rewrite Hl, He, Ht.
  match goal with
  | |- context [Player.add_experience ?q ?y ?n] =>
      destruct (lifetime_add q y n) as (Hl' & Ht')
  end.
  unfold lifetime_xp in Hl' at 1. rewrite Hl', Ht'.
  unfold lifetime_xp. simpl. lia.
Qed.

Lemma same_balance_check_rules (e : GameEngine) (now : Z)
    (rules : list AchievementRule) (p : Player) :
  same_balance p (fst (fst (GameEngine.check_rules e now rules p))).
Proof.
  apply (check_rules_related same_balance).
  - reflexivity.
  - unfold same_balance. intros p1 p2 p3 H1 H2. lia.
  - apply same_balance_earn.
Qed.

Lemma exec_balance (e : GameEngine) (now : Z) (op : Op) (pid : string) :
  balance_of (GameEngine.get_player (exec e (now, op)) pid)
    = balance_of (GameEngine.get_player e pid)
      + match op with
        | AwardExperience k amount =>
            if is_registered e pid && String.eqb k pid then amount else 0
        | _ => 0
        end /\
  is_registered (exec e (now, op)) pid
    = match op with
      | RegisterPlayer k _ => is_registered e pid || String.eqb k pid
      | _ => is_registered e pid
      end.
Proof.
  unfold is_registered. rewrite exec_get_player.
  destruct op as [k uname|r|c|k cid|k cid|k amount|event listener];
    try (split; [lia | reflexivity]).
  - destruct (String.eqb k pid);
      destruct (GameEngine.get_player e pid) as [p|]; simpl;
      split; try lia; reflexivity.
  - destruct (String.eqb k pid);
      destruct (GameEngine.get_player e pid) as [p|]; simpl;
      try (split; [lia | reflexivity]).
    destruct (_challenge_catalog e !! cid) as [l|]; simpl;
      [|split; [lia | reflexivity]].
    split; [|reflexivity].
    unfold Player.start_challenge, lifetime_xp.
    destruct (_challenges p !! c_id (store e l)); simpl; lia.
  - destruct (String.eqb k pid);
      destruct (GameEngine.get_player e pid) as [p|]; simpl;
      try (split; [lia | reflexivity]).
    pose proof (same_balance_complete (store e) p cid now) as Hc.
    destruct (fst (fst (Player.complete_challenge (store e) p cid now)));
      simpl; [|split; [lia | reflexivity]].
    split; [|reflexivity].
    match goal with
    | |- context [GameEngine.check_rules ?e1 ?n ?rs ?q] =>
        pose proof (same_balance_check_rules e1 n rs q) as Hr
    end.
    unfold same_balance in *. lia.
  - destruct (String.eqb k pid);
      destruct (GameEngine.get_player e pid) as [p|]; simpl;
      try (split; [lia | reflexivity]).
    split; [|reflexivity].
    match goal with
    | |- context [GameEngine.check_rules ?e1 ?n ?rs ?q] =>
        pose proof (same_balance_check_rules e1 n rs q) as Hr
    end.
    destruct (lifetime_add p amount now) as (Hl & Ht).
    unfold same_balance in *. lia.
Qed.

Lemma run_balance (steps : list (Z * Op)) (e : GameEngine) (pid : string) :
  balance_of (GameEngine.get_player (run e steps) pid)
    = balance_of (GameEngine.get_player e pid)
      + awarded pid (is_registered e pid) steps.
Proof.
  revert e. induction steps as [|[now op] steps IH]; intros e.
  - simpl. lia.
  - change (run e ((now, op) :: steps)) with (run (exec e (now, op)) steps).
    rewrite IH. destruct (exec_balance e now op pid) as (Hb & Hr).
    rewrite Hb, Hr. simpl.
    destruct op; lia.
Qed.

(** X13.  Every point of experience is accounted for.  In any state
    reached from a new engine, the experience a player has earned in all
    (what is left plus the thresholds paid for its levels) is its
    [total_points] plus the amounts handed to it by [award_experience]
    since it registered: achievements and challenges add the same number
    to the points and to the experience, and nothing else changes
    either. *)
Theorem experience_accounted (steps : list (Z * Op)) (pid : string)
    (p : Player) :
  GameEngine.get_player (run new_engine steps) pid = Some p ->
  experience p + 50 * level p * (level p - 1)
    = total_points p + awarded pid false steps.
Proof.
  intros Hp. pose proof (run_balance steps new_engine pid) as Hb.
  rewrite Hp in Hb. simpl in Hb. unfold lifetime_xp in Hb.
  change (is_registered new_engine pid) with false in Hb. lia.
Qed.

Lemma experience_accounted_witness :
  exists p,
    GameEngine.get_player
      (run new_engine (two_rules ++ [(3, AwardExperience "p1" 100)])) "p1"
      = Some p /\
    experience p + 50 * level p * (level p - 1) = total_points p + 100.
Proof.
  destruct (GameEngine.get_player
              (run new_engine (two_rules ++ [(3, AwardExperience "p1" 100)]))
              "p1") as [p|] eqn:E; [|vm_compute in E; discriminate].
  exists p. split; [reflexivity|].
  apply (experience_accounted _ "p1" p E).
Defined.

(** ** Achievements held *)

Lemma check_rules_unique (e : GameEngine) (now : Z)
    (rules : list AchievementRule) (p : Player) :
  NoDup (map a_id (_achievements p)) ->
  let p' := fst (fst (GameEngine.check_rules e now rules p)) in
  NoDup (map a_id (_achievements p')) /\
  (forall a, In a (_achievements p') ->
             In a (_achievements p) \/ In a (map achievement rules)).
Proof.
  intros Hnd p'.
  destruct (check_rules_pass e now rules p)
    as (_ & Hsub & Hach & Hfresh & Hnews & _).
  fold p' in Hach. rewrite Hach. split.
  - rewrite map_app. apply NoDup_app. split; [exact Hnd|].
    split; [|exact Hnews].
    intros x Hx Hx'.
    apply list_elem_of_In, in_map_iff in Hx. destruct Hx as (a0 & <- & Ha0).
    apply list_elem_of_In, in_map_iff in Hx'. destruct Hx' as (a & Heq & Ha).
    assert (Hh : Player.holds p (a_id a) = true).
    { apply holds_spec. exists a0. split; [exact Ha0 | congruence]. }
    rewrite (Hfresh a Ha) in Hh. discriminate.
  - intros a Ha. apply in_app_or in Ha. destruct Ha as [Ha|Ha];
      [left; exact Ha|].
    right. apply list_elem_of_In. eapply elem_of_sublist; [|exact Hsub].
    now apply list_elem_of_In.
Qed.

Lemma exec_achievements_sound (e : GameEngine) (step : Z * Op) :
  achievements_sound e -> achievements_sound (exec e step).
Proof.
  intros He. destruct step as [now op]. intros pid p' Hp'.
  destruct (exec_fields e now op) as (_ & _ & _ & Hrules).
  assert (Hgrow : forall a, In a (map achievement (_achievement_rules e)) ->
            In a (map achievement (_achievement_rules (exec e (now, op))))).
  { intros a Ha. rewrite Hrules. destruct op; try exact Ha.
    rewrite map_app. apply in_or_app. now left. }
  assert (Hkeep : forall p, GameEngine.get_player e pid = Some p ->
            _achievements p' = _achievements p ->
            NoDup (map a_id (_achievements p')) /\
            (forall a, In a (_achievements p') ->
               In a (map achievement
                       (_achievement_rules (exec e (now, op)))))).
  { intros p Hp Heq. rewrite Heq. destruct (He pid p Hp) as (Hnd & Hin).
    split; [exact Hnd | intros a Ha; apply Hgrow, Hin, Ha]. }
  assert (Hpass : forall p e1 p1,
            GameEngine.get_player e pid = Some p ->
            _achievements p1 = _achievements p ->
            p' = fst (fst (GameEngine.check_rules e1 now
                             (_achievement_rules e) p1)) ->
            NoDup (map a_id (_achievements p')) /\
            (forall a, In a (_achievements p') ->
               In a (map achievement
                       (_achievement_rules (exec e (now, op)))))).
  { intros p e1 p1 Hp Heq ->. destruct (He pid p Hp) as (Hnd & Hin).
    rewrite <- Heq in Hnd.
    destruct (check_rules_unique e1 now (_achievement_rules e) p1 Hnd)
      as (Hnd' & Hin').
    split; [exact Hnd'|]. intros a Ha. apply Hgrow.
    destruct (Hin' a Ha) as [H|H]; [|exact H].
    apply Hin. now rewrite <- Heq. }
  rewrite exec_get_player in Hp'.
  destruct op as [k uname|r|c|k cid|k cid|k amount|event listener];
    try (apply (Hkeep p' Hp' eq_refl)).
  - destruct (String.eqb k pid); [|apply (Hkeep p' Hp' eq_refl)].
    destruct (GameEngine.get_player e pid) as [p|] eqn:Hp.
    + injection Hp' as <-. now apply (Hkeep p).
    + injection Hp' as <-. simpl. split; [constructor | intros a []].
  - destruct (String.eqb k pid); [|apply (Hkeep p' Hp' eq_refl)].
    destruct (GameEngine.get_player e pid) as [p|] eqn:Hp; [|discriminate].
    destruct (_challenge_catalog e !! cid) as [l|];
      injection Hp' as <-; apply (Hkeep p eq_refl);
      [apply start_challenge_frame | reflexivity].
  - destruct (String.eqb k pid); [|apply (Hkeep p' Hp' eq_refl)].
    destruct (GameEngine.get_player e pid) as [p|] eqn:Hp; [|discriminate].
    cbv zeta in Hp'.
    destruct (fst (fst (Player.complete_challenge (store e) p cid now)));
      injection Hp' as Hp'; [|subst p'; now apply (Hkeep p)].
    eapply (Hpass p); [reflexivity | | symmetry; exact Hp'].
    apply complete_challenge_frame.
  - destruct (String.eqb k pid); [|apply (Hkeep p' Hp' eq_refl)].
    destruct (GameEngine.get_player e pid) as [p|] eqn:Hp; [|discriminate].
    injection Hp' as Hp'.
    eapply (Hpass p); [reflexivity | | symmetry; exact Hp'].
    apply add_experience_frame.
Qed.

Lemma run_achievements_sound (steps : list (Z * Op)) (e : GameEngine) :
  achievements_sound e -> achievements_sound (run e steps).
Proof.
  revert e. induction steps as [|step steps IH]; intros e He;
    [exact He|].
  apply (IH (exec e step)), exec_achievements_sound, He.
Qed.

(** X14.  In every state reached from a new engine a player holds each
    achievement id at most once, and every achievement it holds is the
    achievement of a rule registered with the engine: nothing is granted
    except through a rule. *)
Theorem achievements_from_rules (steps : list (Z * Op)) (pid : string)
    (p : Player) :
  GameEngine.get_player (run new_engine steps) pid = Some p ->
  NoDup (map a_id (_achievements p)) /\
  (forall a, In a (_achievements p) ->
     exists rule, In rule (_achievement_rules (run new_engine steps)) /\
                  achievement rule = a).
Proof.
  intros Hp.
  assert (H0 : achievements_sound new_engine)
    by (intros q p0 H; discriminate).
  destruct (run_achievements_sound steps new_engine H0 pid p Hp)
    as (Hnd & Hin).
  split; [exact Hnd|]. intros a Ha.
  apply Hin, in_map_iff in Ha. destruct Ha as (rule & Hr & Hin').
  now exists rule.
Qed.

Lemma achievements_from_rules_witness :
  exists p,
    GameEngine.get_player
      (run new_engine (two_rules ++ [(3, AwardExperience "p1" 100)])) "p1"
      = Some p /\
    NoDup (map a_id (_achievements p)).
Proof.
  destruct (GameEngine.get_player
              (run new_engine (two_rules ++ [(3, AwardExperience "p1" 100)]))
              "p1") as [p|] eqn:E; [|vm_compute in E; discriminate].
  exists p. split; [reflexivity|].
  apply (achievements_from_rules _ "p1" p E).
Defined.

(** ** Edges of the leaderboard *)

Lemma slice_to_prefix {A : Type} (l : list A) (n : Z) :
  exists k, GameEngine.slice_to l n = firstn k l.
Proof.
  unfold GameEngine.slice_to. destruct (0 <=? n); eexists; reflexivity.
Qed.

Lemma slice_to_length {A : Type} (l : list A) (n : Z) :
  length (GameEngine.slice_to l n)
    = if 0 <=? n then Nat.min (Z.to_nat n) (length l)
      else Z.to_nat (Z.of_nat (length l) + n).
Proof.
  unfold GameEngine.slice_to.
  destruct (Z.leb_spec 0 n); rewrite length_firstn; lia.
Qed.

Lemma firstn_head {A : Type} (k : nat) (l : list A) (x : A) :
  nth_error (firstn k l) 0 = Some x -> exists rest, l = x :: rest.
Proof.
  destruct k, l; simpl; try discriminate.
  intros [= ->]. eauto.
Qed.

Lemma firstn_In {A : Type} (k : nat) (l : list A) (x : A) :
  In x (firstn k l) -> In x l.
Proof.
  intros H. rewrite <- (firstn_skipn k l). apply in_or_app. now left.
Qed.

(** X15.  The edges of [get_leaderboard].  A negative [top_n] does not
    give an empty list: it drops that many entries from the bottom of the
    ranking.  A [top_n] of zero gives no entry, and one at least the
    number of players lists them all.  Whatever [top_n] is, every entry is
    the summary of a registered player, and the first entry, if there is
    one, has the highest [total_points] of all registered players. *)
Theorem get_leaderboard_edges (e : GameEngine) (top_n now : Z) :
  let n := length (_players e) in
  let lb := GameEngine.get_leaderboard e top_n now in
  (top_n < 0 -> length lb = Z.to_nat (Z.of_nat n + top_n)) /\
  (top_n = 0 -> lb = []) /\
  (Z.of_nat n <= top_n -> length lb = n) /\
  (forall en, In en lb ->
     exists p, In p (map snd (_players e)) /\
               GameEngine.summary en
                 = Player.get_progress_summary (store e) p now) /\
  (forall en p,
     nth_error lb 0 = Some en -> In p (map snd (_players e)) ->
     total_points p <= Player.s_total_points (GameEngine.summary en)).
Proof.
  intros n lb.
  set (sp := GameEngine.sorted_reverse total_points (map snd (_players e))).
  assert (Hperm : Permutation sp (map snd (_players e)))
    by apply sorted_reverse_perm.
  assert (Hsp : length sp = n).
  { rewrite (Permutation_length Hperm). apply length_map. }
  assert (Hlen : length lb = length (GameEngine.slice_to sp top_n)).
  { subst lb. unfold GameEngine.get_leaderboard. fold sp.
    rewrite length_map, <- (length_map snd). now rewrite enumerate_from_snd. }
  rewrite slice_to_length, Hsp in Hlen.
  destruct (slice_to_prefix sp top_n) as (k & Hk).
  split; [|split; [|split; [|split]]].
  - intros Hneg. rewrite Hlen.
    destruct (Z.leb_spec 0 top_n); [lia | reflexivity].
  - intros ->. destruct lb; [reflexivity | simpl in Hlen; lia].
  - intros Hbig. rewrite Hlen.
    destruct (Z.leb_spec 0 top_n); lia.
  - intros en Hen. subst lb. unfold GameEngine.get_leaderboard in Hen.
    fold sp in Hen. rewrite Hk in Hen.
    apply in_map_iff in Hen. destruct Hen as ([i q] & <- & Hin).
    exists q. split; [|reflexivity].
    apply (Permutation_in _ Hperm), (firstn_In k).
    rewrite <- (enumerate_from_snd (firstn k sp) 0).
    apply in_map_iff. now exists (i, q).
  - intros en p Hen Hp. subst lb. unfold GameEngine.get_leaderboard in Hen.
    fold sp in Hen. rewrite Hk, nth_error_map, enumerate_from_nth in Hen.
    destruct (nth_error (firstn k sp) 0) as [q|] eqn:Hq; [|discriminate].
    injection Hen as <-. simpl.
    destruct (firstn_head k sp q Hq) as (rest & Hrest).
    pose proof (sorted_reverse_sorted total_points (map snd (_players e)))
      as Hsorted.
    fold sp in Hsorted. rewrite Hrest in Hsorted.
    apply StronglySorted_inv in Hsorted. destruct Hsorted as (_ & Hall).
    apply (Permutation_in _ (Permutation_sym Hperm)) in Hp.
    rewrite Hrest in Hp. destruct Hp as [<-|Hp]; [lia|].
    rewrite Forall_forall in Hall.
    apply (Hall p). now apply list_elem_of_In.
Qed.

Lemma get_leaderboard_edges_witness :
  let e := run new_engine three_players in
  length (GameEngine.get_leaderboard e (-1) 20) = 2%nat /\
  GameEngine.get_leaderboard e 0 20 = [] /\
  length (GameEngine.get_leaderboard e 10 20) = 3%nat.
Proof.
  intros e.
  destruct (get_leaderboard_edges e (-1) 20) as (Hneg & _).
  destruct (get_leaderboard_edges e 0 20) as (_ & Hzero & _).
  destruct (get_leaderboard_edges e 10 20) as (_ & _ & Hall & _).
  split; [|split].
  - rewrite Hneg by lia. reflexivity.
  - now apply Hzero.
  - rewrite Hall; [reflexivity | vm_compute; discriminate].
Defined.

(** ** [add_challenge] *)

(** X16.  [add_challenge] files the new object under its id.  The catalog
    grows by one entry only when the id is new; for an id already there
    the entry is replaced.  Nothing else moves: the players, the objects
    already in the store, the rules, the listeners and the trace are as
    before.  So a player who tracks the id keeps the object it has, and
    assigning the id to that player again changes nothing. *)
Theorem add_challenge_spec (e : GameEngine) (c : Challenge) :
  let e' := GameEngine.add_challenge e c in
  _challenge_catalog e' !! c_id c = Some (next_loc e) /\
  store e' (next_loc e) = c /\
  (forall cid, cid <> c_id c ->
     _challenge_catalog e' !! cid = _challenge_catalog e !! cid) /\
  size (_challenge_catalog e')
    = match _challenge_catalog e !! c_id c with
      | Some _ => size (_challenge_catalog e)
      | None => S (size (_challenge_catalog e))
      end /\
  (forall l, (l < next_loc e)%nat -> store e' l = store e l) /\
  _players e' = _players e /\
  _achievement_rules e' = _achievement_rules e /\
  _event_listeners e' = _event_listeners e /\ trace e' = trace e /\
  (forall pid p l0,
     GameEngine.get_player e pid = Some p ->
     _challenges p !! c_id c = Some l0 ->
     GameEngine.assign_challenge e' pid (c_id c) = (true, e')).
Proof.
  intros e'. subst e'. unfold GameEngine.add_challenge. simpl.
  split; [apply lookup_insert_eq|].
  split; [unfold store_set; now rewrite Nat.eqb_refl|].
  split; [intros cid Hne; now apply lookup_insert_ne|].
  split.
  { destruct (_challenge_catalog e !! c_id c) as [l|] eqn:E.
    - apply map_size_insert_Some. eauto.
    - now apply map_size_insert_None. }
  split.
  { intros l Hl. unfold store_set.
    destruct (Nat.eqb_spec l (next_loc e)); [lia | reflexivity]. }
  repeat (split; [reflexivity|]).
  intros pid p l0 Hp Hl0. unfold GameEngine.assign_challenge.
  unfold GameEngine.get_player in *. simpl. rewrite Hp, lookup_insert_eq.
  rewrite (start_challenge_tracked _ p (next_loc e) l0).
  - unfold GameEngine.set_players. simpl.
    now rewrite (players_set_same _ pid p Hp).
  - unfold store_set. now rewrite Nat.eqb_refl.
Qed.

Lemma add_challenge_spec_witness :
  let e := run new_engine shared_setup in
  let c2 := mkChallenge "c1" "Parse again" "" 5 [ML] 500 false None in
  let e' := GameEngine.add_challenge e c2 in
  size (_challenge_catalog e') = 1%nat /\
  store e' 0%nat = store e 0%nat /\
  GameEngine.assign_challenge e' "p1" "c1" = (true, e').
Proof.
  intros e c2 e'.
  destruct (add_challenge_spec e c2)
    as (_ & _ & _ & Hsize & Hold & _ & _ & _ & _ & Hassign).
  fold e' in Hsize, Hold, Hassign.
  split; [rewrite Hsize; vm_compute; reflexivity|].
  split; [apply Hold; vm_compute; lia|].
  destruct (GameEngine.get_player e "p1") as [p|] eqn:E;
    [|vm_compute in E; discriminate].
  apply (Hassign "p1" p 0%nat E).
  vm_compute in E. injection E as <-. vm_compute. reflexivity.
Defined.

(** ** Statistics of reachable states *)

Lemma level_le_check_rules (e : GameEngine) (now : Z)
    (rules : list AchievementRule) (p : Player) :
  level p <= level (fst (fst (GameEngine.check_rules e now rules p))).
Proof.
  apply (check_rules_related (fun p p' => level p <= level p')).
  - intros q. lia.
  - intros p1 p2 p3 H1 H2. lia.
  - apply earn_achievement_level.
Qed.

Lemma exec_levels_ok (e : GameEngine) (step : Z * Op) :
  levels_ok e -> levels_ok (exec e step).
Proof.
  intros He. destruct step as [now op]. intros pid p' Hp'.
  rewrite exec_get_player in Hp'.
  destruct op as [k uname|r|c|k cid|k cid|k amount|event listener];
    try (apply (He pid p' Hp')).
  - destruct (String.eqb k pid); [|apply (He pid p' Hp')].
    destruct (GameEngine.get_player e pid) as [p|] eqn:Hp;
      injection Hp' as <-; [now apply (He pid) | simpl; lia].
  - destruct (String.eqb k pid); [|apply (He pid p' Hp')].
    destruct (GameEngine.get_player e pid) as [p|] eqn:Hp; [|discriminate].
    pose proof (He pid p Hp) as Hl.
    destruct (_challenge_catalog e !! cid) as [l|];
      injection Hp' as <-; [|exact Hl].
    destruct (start_challenge_frame (store e) p l) as (_ & _ & -> & _).
    exact Hl.
  - destruct (String.eqb k pid); [|apply (He pid p' Hp')].
    destruct (GameEngine.get_player e pid) as [p|] eqn:Hp; [|discriminate].
    pose proof (He pid p Hp) as Hl. cbv zeta in Hp'.
    destruct (fst (fst (Player.complete_challenge (store e) p cid now)));
      injection Hp' as <-; [|exact Hl].
    destruct (evolves_complete (store e) p cid now)
      as (_ & _ & _ & Hlev & _).
    match goal with
    | |- context [GameEngine.check_rules ?e1 ?n ?rs ?q] =>
        pose proof (level_le_check_rules e1 n rs q)
    end.
    lia.
  - destruct (String.eqb k pid); [|apply (He pid p' Hp')].
    destruct (GameEngine.get_player e pid) as [p|] eqn:Hp; [|discriminate].
    pose proof (He pid p Hp) as Hl. injection Hp' as <-.
    pose proof (add_experience_level_step p amount now) as Hs.
    match goal with
    | |- context [GameEngine.check_rules ?e1 ?n ?rs ?q] =>
        pose proof (level_le_check_rules e1 n rs q)
    end.
    destruct (fst (Player.add_experience p amount now)); lia.
Qed.

Lemma run_levels_ok (steps : list (Z * Op)) (e : GameEngine) :
  levels_ok e -> levels_ok (run e steps).
Proof.
  revert e. induction steps as [|step steps IH]; intros e He;
    [exact He|].
  apply (IH (exec e step)), exec_levels_ok, He.
Qed.

Lemma players_get_In (ps : list (string * Player)) (k : string)
    (p : Player) :
  NoDup (map fst ps) -> In (k, p) ps -> players_get ps k = Some p.
Proof.
  induction ps as [|[j q] ps IH]; simpl; intros Hnd Hin; [destruct Hin|].
  apply NoDup_cons in Hnd. destruct Hnd as (Hj & Hnd).
  destruct Hin as [[= -> ->]|Hin].
  - now rewrite String.eqb_refl.
  - destruct (String.eqb_spec j k) as [->|_]; [|now apply IH].
    exfalso. apply Hj. apply list_elem_of_In, in_map_iff.
    now exists (k, p).
Qed.

Lemma sum_levels_from (ps : list (string * Player)) (acc : Z) :
  (forall kp, In kp ps -> 1 <= level (snd kp)) ->
  acc + Z.of_nat (length ps)
    <= fold_left (fun a kp => a + level (snd kp)) ps acc.
Proof.
  revert acc. induction ps as [|kp ps IH]; intros acc H; simpl.
  - lia.
  - specialize (IH (acc + level (snd kp))).
    assert (1 <= level (snd kp)) by (apply H; now left).
    assert (Hrest : forall kp0, In kp0 ps -> 1 <= level (snd kp0))
      by (intros kp0 Hin; apply H; now right).
    specialize (IH Hrest). lia.
Qed.

(** X17.  The statistics of a state reached from a new engine:
    [total_players] is the number of distinct registered ids, and when
    there is at least one player the average level is at least 1, since
    no player is ever below level 1 (with no player it is 0). *)
Theorem get_stats_reachable (steps : list (Z * Op)) :
  let e := run new_engine steps in
  exists s,
    GameEngine.get_stats e = Ok s /\
    GameEngine.total_players s = Z.of_nat (length (player_ids e)) /\
    NoDup (player_ids e) /\
    (_players e <> [] -> (1 <= GameEngine.average_player_level s)%Q) /\
    (_players e = [] -> GameEngine.average_player_level s = 0%Q).
Proof.
  intros e.
  assert (Hnd : NoDup (player_ids e)).
  { apply run_player_ids. constructor. }
  assert (Hlev : levels_ok e).
  { apply run_levels_ok. intros pid p H. discriminate. }
  assert (Hsum : Z.of_nat (length (_players e))
                 <= GameEngine.sum_levels (_players e)).
  { unfold GameEngine.sum_levels.
    pose proof (sum_levels_from (_players e) 0) as H. simpl in H.
    apply H. intros [k p] Hin. apply (Hlev k p).
    now apply players_get_In. }
  unfold GameEngine.get_stats. unfold player_ids in *. rewrite length_map.
  revert Hnd Hsum.
  destruct (_players e) as [|kp ps] eqn:E; intros Hnd Hsum.
  - eexists. split; [reflexivity|]. simpl.
    split; [reflexivity|]. split; [exact Hnd|]. split; [congruence|].
    reflexivity.
  - unfold GameEngine.py_truediv.
    assert (Hpos : 0 < Z.of_nat (length (kp :: ps))) by (simpl; lia).
    destruct (Z.eqb_spec (Z.of_nat (length (kp :: ps))) 0); [lia|].
    destruct (Z.ltb_spec 0 (Z.of_nat (length (kp :: ps)))); [|lia].
    eexists. split; [reflexivity|]. simpl GameEngine.total_players.
    split; [reflexivity|]. split; [exact Hnd|]. split; [|discriminate].
    intros _. simpl GameEngine.average_player_level.
    unfold Qle. simpl Qnum. simpl Qden.
    rewrite Zpos_P_of_succ_nat. simpl length in Hsum. lia.
Qed.

Lemma get_stats_reachable_witness :
  exists s,
    GameEngine.get_stats (run new_engine three_players) = Ok s /\
    (1 <= GameEngine.average_player_level s)%Q.
Proof.
  destruct (get_stats_reachable three_players)
    as (s & Hs & _ & _ & Havg & _).
  exists s. split; [exact Hs|].
  apply Havg. intros H. vm_compute in H. discriminate.
Defined.

Lemma challenges_partition_witness :
  let c := mkChallenge "c1" "Tokenize" "" 1 [NLP; ML] 120 false None in
  let st := store_set empty_store 0%nat c in
  let p := Player.start_challenge st (new_player "p1" "alice" 0) 0%nat in
  (length (Player.active_challenges st p)
   + length (Player.completed_challenges st p))%nat = 1%nat /\
  ~ In c (Player.completed_challenges st p).
Proof.
  intros c st p.
  destruct (challenges_partition st p 0) as (Hsum & Hdisj & _).
  split; [rewrite Hsum; vm_compute; reflexivity|].
  apply Hdisj. vm_compute. left. reflexivity.
Defined.

Lemma registry_grows_witness :
  player_ids (run (run new_engine three_players)
                  [(12, RegisterPlayer "d" "dee");
                   (13, RegisterPlayer "a" "again")])
    = ["a"; "b"; "c"; "d"] /\
  exists p,
    GameEngine.get_player
      (run (run new_engine three_players)
           [(12, RegisterPlayer "d" "dee");
            (13, RegisterPlayer "a" "again")]) "a" = Some p /\
    player_id p = "a".
Proof.
  destruct (registry_grows three_players
              [(12, RegisterPlayer "d" "dee");
               (13, RegisterPlayer "a" "again")]) as (_ & _ & Hin).
  split; [vm_compute; reflexivity|].
  apply (proj1 (Hin "a")). vm_compute. left. reflexivity.
Defined.

(** ** [award_experience] *)



(** ** Completion as the summary shows it *)

(** X19.  In a state reached from a new engine, a successful
    [complete_player_challenge] moves exactly one challenge of that player
    from active to completed in its progress summary; the achievements
    granted in the same call do not change the counts. *)
Theorem completion_in_summary (steps : list (Z * Op)) (pid cid : string)
    (now t : Z) :
  let e := run new_engine steps in
  let r := GameEngine.complete_player_challenge e pid cid now in
  fst r = true ->
  exists p p',
    GameEngine.get_player e pid = Some p /\
    GameEngine.get_player (snd r) pid = Some p' /\
    Player.s_completed_challenges
      (Player.get_progress_summary (store (snd r)) p' t)
      = Player.s_completed_challenges
          (Player.get_progress_summary (store e) p t) + 1 /\
    Player.s_active_challenges
      (Player.get_progress_summary (store (snd r)) p' t) + 1
      = Player.s_active_challenges
          (Player.get_progress_summary (store e) p t).
Proof.
  intros e r Hok.
  assert (Hwf : well_formed e).
  { apply run_well_formed. split.
    - intros c l H. simpl in H. rewrite lookup_empty in H. discriminate.
    - intros q p c l H. discriminate. }
  assert (Hexec : snd r = exec e (now, CompletePlayerChallenge pid cid))
    by reflexivity.
  pose proof (exec_get_player e now (CompletePlayerChallenge pid cid) pid)
    as Hget.
  destruct (exec_fields e now (CompletePlayerChallenge pid cid))
    as (Hst & _).
  rewrite <- Hexec in Hget, Hst. rewrite String.eqb_refl in Hget.
  subst r. unfold GameEngine.complete_player_challenge in Hok.
  destruct (GameEngine.get_player e pid) as [p|] eqn:Hp;
    [|discriminate].
  assert (Hid : tracks_by_id (store e) (_challenges p)).
  { intros c l Hl. apply (proj2 Hwf pid p c l Hp Hl). }
  pose proof (complete_challenge_moves_one (store e) p cid now Hid)
    as Hmove.
  pose proof (complete_challenge_challenges (store e) p cid now) as Hch.
  cbv zeta in Hget, Hmove.
  destruct (Player.complete_challenge (store e) p cid now)
    as [[success p1] st1].
  simpl in Hget, Hmove, Hst, Hch.
  destruct success.
  2:{ simpl in Hok. discriminate. }
  destruct (Hmove eq_refl) as (Hc & Ha).
  pose proof (check_rules_challenges (GameEngine.set_store e st1) now
                (_achievement_rules e) p1) as Hch2.
  eexists. eexists. split; [reflexivity|]. split; [exact Hget|].
  rewrite Hst. simpl.
  unfold Player.completed_challenges, Player.active_challenges,
    Player.challenge_values in *.
  rewrite Hch2. split; lia.
Qed.

Lemma completion_in_summary_witness :
  let e := run new_engine shared_setup in
  let r := GameEngine.complete_player_challenge e "p1" "c1" 5 in
  exists p',
    GameEngine.get_player (snd r) "p1" = Some p' /\
    Player.s_completed_challenges
      (Player.get_progress_summary (store (snd r)) p' 9) = 1.
Proof.
  intros e r.
  destruct (completion_in_summary shared_setup "p1" "c1" 5 9)
    as (p & p' & Hp & Hp' & Hc & _); [vm_compute; reflexivity|].
  exists p'. split; [exact Hp'|].
  fold e in Hp. fold e r in Hc. rewrite Hc.
  vm_compute in Hp. injection Hp as <-. vm_compute. reflexivity.
Defined.

(** ** Floors that need no assumption on the amounts *)

Lemma exec_from_fresh (e : GameEngine) (step : Z * Op) :
  from_fresh e -> from_fresh (exec e step).
Proof.
  intros He. destruct step as [now op]. intros pid p' Hp'.
  rewrite exec_get_player in Hp'.
  assert (Hgrow : forall p, GameEngine.get_player e pid = Some p ->
            evolves p p' ->
            exists uname t, evolves (new_player pid uname t) p').
  { intros p Hp Hev. destruct (He pid p Hp) as (u & t & H0).
    exists u, t. eapply evolves_trans; eassumption. }
  destruct op as [k uname|r|c|k cid|k cid|k amount|event listener];
    try (apply (Hgrow p' Hp'), evolves_refl).
  - destruct (String.eqb_spec k pid) as [->|_];
      [|apply (Hgrow p' Hp'), evolves_refl].
    destruct (GameEngine.get_player e pid) as [p|] eqn:Hp;
      injection Hp' as <-.
    + apply (Hgrow p eq_refl), evolves_refl.
    + exists uname, now. apply evolves_refl.
  - destruct (String.eqb k pid); [|apply (Hgrow p' Hp'), evolves_refl].
    destruct (GameEngine.get_player e pid) as [p|] eqn:Hp; [|discriminate].
    destruct (_challenge_catalog e !! cid) as [l|]; injection Hp' as <-;
      apply (Hgrow p eq_refl); [apply evolves_start | apply evolves_refl].
  - destruct (String.eqb k pid); [|apply (Hgrow p' Hp'), evolves_refl].
    destruct (GameEngine.get_player e pid) as [p|] eqn:Hp; [|discriminate].
    cbv zeta in Hp'.
    destruct (fst (fst (Player.complete_challenge (store e) p cid now)));
      injection Hp' as <-; apply (Hgrow p eq_refl);
      [|apply evolves_refl].
    eapply evolves_trans; [apply evolves_complete|].
    apply (check_rules_related evolves evolves_refl evolves_trans
             evolves_earn).
  - destruct (String.eqb k pid); [|apply (Hgrow p' Hp'), evolves_refl].
    destruct (GameEngine.get_player e pid) as [p|] eqn:Hp; [|discriminate].
    injection Hp' as <-. apply (Hgrow p eq_refl).
    eapply evolves_trans; [apply evolves_add|].
    apply (check_rules_related evolves evolves_refl evolves_trans
             evolves_earn).
Qed.

Lemma run_from_fresh (steps : list (Z * Op)) (e : GameEngine) :
  from_fresh e -> from_fresh (run e steps).
Proof.
  revert e. induction steps as [|step steps IH]; intros e He;
    [exact He|].
  apply (IH (exec e step)), exec_from_fresh, He.
Qed.

(** X20.  Whatever amounts and point values the operations carry, the
    engine rejecting none, a registered player is never below level 1 and
    none of its skill levels is ever below 0; and it keeps the username
    it registered with, which a later registration under the same id
    cannot replace. *)
Theorem players_floor (steps : list (Z * Op)) (pid : string) (p : Player) :
  GameEngine.get_player (run new_engine steps) pid = Some p ->
  1 <= level p /\
  (forall s, 0 <= Player.get_skill_level p s) /\
  player_id p = pid /\
  (exists t, In (t, RegisterPlayer pid (username p)) steps).
Proof.
  intros Hp.
  assert (H0 : from_fresh new_engine) by (intros q p0 H; discriminate).
  destruct (run_from_fresh steps new_engine H0 pid p Hp)
    as (u & t & Hid & Hu & _ & Hl & Hs & _).
  split; [exact Hl|]. split; [exact Hs|]. split; [exact Hid|].
  clear Hl Hs Hid H0 Hu u t.
  revert p Hp. induction steps as [|[now op] steps IH] using rev_ind;
    intros p Hp; [discriminate|].
  rewrite run_snoc, exec_get_player in Hp.
  assert (Hold : forall q,
            GameEngine.get_player (run new_engine steps) pid = Some q ->
            username q = username p ->
            exists t, In (t, RegisterPlayer pid (username p))
                         (steps ++ [(now, op)])).
  { intros q Hq Huq. destruct (IH q Hq) as (t & Ht).
    exists t. apply in_or_app. left. now rewrite <- Huq. }
  assert (Hev : forall q,
            GameEngine.get_player (run new_engine steps) pid = Some q ->
            evolves q p ->
            exists t, In (t, RegisterPlayer pid (username p))
                         (steps ++ [(now, op)])).
  { intros q Hq (_ & Huq & _). apply (Hold q Hq). now rewrite Huq. }
  destruct op as [k uname|r|c|k cid|k cid|k amount|event listener];
    try (apply (Hold p Hp eq_refl)).
  - destruct (String.eqb_spec k pid) as [->|_];
      [|apply (Hold p Hp eq_refl)].
    destruct (GameEngine.get_player (run new_engine steps) pid)
      as [q|] eqn:Hq; injection Hp as <-.
    + apply (Hold q eq_refl eq_refl).
    + exists now. apply in_or_app. right. left. reflexivity.
  - destruct (String.eqb k pid); [|apply (Hold p Hp eq_refl)].
    destruct (GameEngine.get_player (run new_engine steps) pid)
      as [q|] eqn:Hq; [|discriminate].
    destruct (_challenge_catalog (run new_engine steps) !! cid) as [l|];
      injection Hp as <-; apply (Hev q eq_refl);
      [apply evolves_start | apply evolves_refl].
  - destruct (String.eqb k pid); [|apply (Hold p Hp eq_refl)].
    destruct (GameEngine.get_player (run new_engine steps) pid)
      as [q|] eqn:Hq; [|discriminate].
    cbv zeta in Hp.
    destruct (fst (fst (Player.complete_challenge
                          (store (run new_engine steps)) q cid now)));
      injection Hp as <-; apply (Hev q eq_refl); [|apply evolves_refl].
    eapply evolves_trans; [apply evolves_complete|].
    apply (check_rules_related evolves evolves_refl evolves_trans
             evolves_earn).
  - destruct (String.eqb k pid); [|apply (Hold p Hp eq_refl)].
    destruct (GameEngine.get_player (run new_engine steps) pid)
      as [q|] eqn:Hq; [|discriminate].
    injection Hp as <-. apply (Hev q eq_refl).
    eapply evolves_trans; [apply evolves_add|].
    apply (check_rules_related evolves evolves_refl evolves_trans
             evolves_earn).
Qed.

Lemma players_floor_witness :
  exists p,
    GameEngine.get_player
      (run new_engine [(0, RegisterPlayer "p1" "alice");
                       (1, AwardExperience "p1" (-30));
                       (2, RegisterPlayer "p1" "mallory")]) "p1" = Some p /\
    1 <= level p /\ experience p = -30 /\ username p = "alice".
Proof.
  destruct (GameEngine.get_player
              (run new_engine [(0, RegisterPlayer "p1" "alice");
                               (1, AwardExperience "p1" (-30));
                               (2, RegisterPlayer "p1" "mallory")]) "p1")
    as [p|] eqn:E; [|vm_compute in E; discriminate].
  exists p. split; [reflexivity|].
  destruct (players_floor _ "p1" p E) as (Hl & _).
  split; [exact Hl|].
  vm_compute in E. injection E as <-. split; reflexivity.
Defined.

(** ** The progress summary *)

(** X21.  In [get_progress_summary] the skills mapping has one entry per
    skill, under four different keys, each with the level
    [get_skill_level] reports; and [days_active] is the number of whole
    days since creation, rounded down: 0 during the first day, and
    negative when the clock is read earlier than the creation time. *)
Theorem progress_summary_spec (st : Store) (p : Player) (now : Z) :
  let s := Player.get_progress_summary st p now in
  map fst (Player.s_skills s) = map Skill_value all_skills /\
  NoDup (map fst (Player.s_skills s)) /\
  (forall sk, In (Skill_value sk, Player.get_skill_level p sk)
                 (Player.s_skills s)) /\
  86400 * Player.s_days_active s <= now - created_at p
    < 86400 * (Player.s_days_active s + 1) /\
  (created_at p <= now < created_at p + 86400 ->
   Player.s_days_active s = 0) /\
  (now < created_at p -> Player.s_days_active s < 0).
Proof.
  intros s. subst s. simpl.
  split; [reflexivity|]. split.
  { repeat constructor; rewrite ?list_elem_of_In; simpl;
      intuition discriminate. }
  split.
  { intros sk. unfold Player.get_skill_level. destruct sk; simpl; tauto. }
  split; [|split]; intros; Z.div_mod_to_equations; lia.
Qed.

Lemma progress_summary_spec_witness :
  Player.s_days_active
    (Player.get_progress_summary empty_store (new_player "p1" "alice" 1000)
       80000) = 0 /\
  Player.s_days_active
    (Player.get_progress_summary empty_store (new_player "p1" "alice" 1000)
       999) < 0.
Proof.
  destruct (progress_summary_spec empty_store
              (new_player "p1" "alice" 1000) 80000)
    as (_ & _ & _ & _ & Hfirst & _).
  destruct (progress_summary_spec empty_store
              (new_player "p1" "alice" 1000) 999)
    as (_ & _ & _ & _ & _ & Hback).
  split; [apply Hfirst; simpl; lia | apply Hback; simpl; lia].
Defined.
